(** * tripleoclient.utils: a shallow embedding and its verified properties

    The embedding follows [tripleoclient/utils.py].  The module is written
    for Python 2 (it ends a generator with [raise StopIteration] and goes
    through [six]); where Python versions differ the Python 2 behaviour is
    the one modelled: byte strings, [str.splitlines] breaking lines at LF,
    CR and CRLF, and [StopIteration] raised in a generator body ending the
    generator.  Dictionaries are association lists; the order of the list
    stands for the order in which the dictionary is iterated, which
    Python 2 leaves to the hash table, so what is proved of a dictionary
    is said of its lookups and its names, or for every order of its
    items.

    Remote services are scripted: the orchestration client by the batches
    its successive [get_events] calls return, the bare-metal client by the
    node each [node.get] attempt returns, the inspector client by the
    status each node has on each polling round.  Logging at debug level and
    the [print] calls are left out; sleeps, remote calls, yields and the
    error log are kept as a trace of effects. *)

From Stdlib Require Import List String Ascii ZArith Lia Bool Arith.
From Stdlib Require Import DecimalString Permutation.
From Stdlib.Strings Require Import Byte.
From Equations Require Import Equations.
From Equations.Prop Require Import Logic.
Import ListNotations.
Open Scope string_scope.
Open Scope list_scope.

Set Implicit Arguments.

(* ===================================================================== *)
(** * Part I: the embedding                                               *)
(* ===================================================================== *)

(** ** Python values *)

(** The exceptions the embedded functions raise. *)
Inductive exn : Type :=
| ValueError (msg : string)
| DeploymentError (msg : string)
| StopIteration.

(** A call either returns a value or raises. *)
Inductive result (A : Type) : Type :=
| Ok (a : A)
| Raise (e : exn).
Arguments Ok {A} a.
Arguments Raise {A} e.

Definition bind {A B : Type} (r : result A) (k : A -> result B) : result B :=
  match r with
  | Ok a => k a
  | Raise e => Raise e
  end.

Notation "x <- r ;; k" := (bind r (fun x => k))
  (at level 61, r at next level, right associativity).

(** [getattr(obj, name, default)] on an attribute that may be absent. *)
Definition getattr {A : Type} (attr : option A) (default : A) : A :=
  match attr with
  | Some a => a
  | None => default
  end.

(** [l[-1]]; [None] stands for the [IndexError] on an empty list. *)
Fixpoint py_last {A : Type} (l : list A) : option A :=
  match l with
  | [] => None
  | [a] => Some a
  | _ :: rest => py_last rest
  end.

(** [str(n)] and ["{0}".format(n)] for an integer. *)
Definition str_of_int (n : Z) : string := NilZero.string_of_int (Z.to_int n).

(** ** Dictionaries *)

Definition dict (V : Type) : Type := list (string * V).

Fixpoint dict_get {V : Type} (d : dict V) (k : string) : option V :=
  match d with
  | [] => None
  | (k', v) :: rest => if String.eqb k' k then Some v else dict_get rest k
  end.

(** [d[k] = v]: an existing key keeps its place, a new key goes last. *)
Fixpoint dict_set {V : Type} (d : dict V) (k : string) (v : V) : dict V :=
  match d with
  | [] => [(k, v)]
  | (k', v') :: rest =>
      if String.eqb k' k then (k', v) :: rest else (k', v') :: dict_set rest k v
  end.

Definition dict_keys {V : Type} (d : dict V) : list string := map fst d.

(** ** Remote objects and effects *)

Record Event : Type := {
  event_id : option string;
  resource_name : option string;
  resource_status : option string
}.

Record Stack : Type := {
  stack_name : string;
  stack_parameters : dict string
}.

(** A bare-metal node; it is associated when it has an instance. *)
Record Node : Type := {
  uuid : string;
  provision_state : string;
  instance_uuid : option string;
  maintenance : bool
}.

(** The dictionary [get_status] of the inspector returns. *)
Record Status : Type := {
  finished : bool;
  error : option string
}.

(** The observable effects of the pollers, in program order. *)
Inductive effect : Type :=
| GetEvents (stack_id : string) (marker : option string)
| NodeGet (node_uuid : string)
| GetStatus (node_uuid : string)
| Yield (node_uuid : string) (status : Status)
| Sleep (seconds : Z)
| LogError (msg : string).

(** ** wait_for_stack_ready *)

(** The orchestration service as the poller sees it: [stacks_get] is
    [orchestration_client.stacks.get] ([None] for [HTTPNotFound]) and
    [events_script] lists what the successive calls of
    [event_utils.get_events] return. *)
Record OrchestrationClient : Type := {
  stacks_get : string -> option Stack;
  events_script : list (list Event)
}.

(** [get_stack]: the stack, or [None] when the service raises
    [HTTPNotFound]. *)
Definition get_stack (orchestration_client : OrchestrationClient)
    (name : string) : option Stack :=
  stacks_get orchestration_client name.

(** What the body of [for event in events] decides on one event:
    [Some true] for [return True], [Some false] for [return False],
    [None] to go on with the next event. *)
Definition check_event (name action : string) (event : Event) : option bool :=
  if String.eqb (getattr (resource_name event) "") name then
    let stack_status := getattr (resource_status event) "" in
    if String.eqb stack_status (action ++ "_COMPLETE")%string then Some true
    else if String.eqb stack_status (action ++ "_FAILED")%string then Some false
    else None
  else None.

Fixpoint scan_events (name action : string) (events : list Event)
    : option bool :=
  match events with
  | [] => None
  | event :: rest =>
      match check_event name action event with
      | Some b => Some b
      | None => scan_events name action rest
      end
  end.

(** The state of the poller when it stops: what it returned ([None] when
    the script ran out with the loop still polling), the value of the local
    variable [marker], and the effects so far. *)
Record PollEnd : Type := {
  returned : option bool;
  last_marker : option string;
  poll_trace : list effect
}.

(** The [while True] loop, one script entry per iteration. *)
Fixpoint poll_loop (name action : string) (marker : option string)
    (script : list (list Event)) : PollEnd :=
  match script with
  | [] => {| returned := None; last_marker := marker; poll_trace := [] |}
  | events :: rest =>
      let call := GetEvents name marker in
      if (1 <=? List.length events)%nat then
        let marker' := match py_last events with
                       | Some e => event_id e (* getattr(events[-1], 'id', None) *)
                       | None => marker
                       end in
        match scan_events name action events with
        | Some b =>
            {| returned := Some b; last_marker := marker';
               poll_trace := [call] |}
        | None =>
            let r := poll_loop name action marker' rest in
            {| returned := returned r; last_marker := last_marker r;
               poll_trace := call :: Sleep 5%Z :: poll_trace r |}
        end
      else
        let r := poll_loop name action marker rest in
        {| returned := returned r; last_marker := last_marker r;
           poll_trace := call :: Sleep 5%Z :: poll_trace r |}
  end.

Definition wait_for_stack_ready (orchestration_client : OrchestrationClient)
    (name : string) (marker : option string) (action : string) : PollEnd :=
  match get_stack orchestration_client name with
  | None => {| returned := Some false; last_marker := marker; poll_trace := [] |}
  | Some stack =>
      poll_loop (stack_name stack) action marker
                (events_script orchestration_client)
  end.

(** The markers the poller held, oldest first: the one each
    [get_events] call was given, then the one it stopped with.  Entry [k]
    is the marker after [k] rounds. *)
Definition markers_sent (t : list effect) : list (option string) :=
  flat_map (fun e => match e with GetEvents _ m => [m] | _ => [] end) t.

Definition marker_history (r : PollEnd) : list (option string) :=
  markers_sent (poll_trace r) ++ [last_marker r].

(** The number of rounds (calls of [get_events]) the poller made. *)
Definition rounds (r : PollEnd) : nat := List.length (markers_sent (poll_trace r)).

(** An event of the stack itself carrying the status [action ++ suffix]. *)
Definition signals (own action suffix : string) (e : Event) : Prop :=
  getattr (resource_name e) "" = own /\
  getattr (resource_status e) "" = (action ++ suffix)%string.

(** The ID of the last event of a log, or [marker] for an empty log. *)
Definition marker_after (marker : option string) (log : list Event)
    : option string :=
  match py_last log with
  | Some e => event_id e
  | None => marker
  end.

(** *** A scripted run used in examples *)

Definition mk_event (id name status : string) : Event :=
  {| event_id := Some id; resource_name := Some name;
     resource_status := Some status |}.

Definition overcloud : Stack :=
  {| stack_name := "overcloud"; stack_parameters := [] |}.

Definition create_script : list (list Event) :=
  [ [ mk_event "e1" "Controller" "CREATE_COMPLETE";
      mk_event "e2" "overcloud" "CREATE_IN_PROGRESS" ];
    [];
    [ mk_event "e3" "Compute" "CREATE_FAILED" ];
    [ mk_event "e4" "overcloud" "CREATE_COMPLETE" ] ].

Definition create_client : OrchestrationClient :=
  {| stacks_get := fun name =>
       if String.eqb name "overcloud" then Some overcloud else None;
     events_script := create_script |}.

(** ** wait_for_provision_state *)

(** The bare-metal service: [node_get_script k] is what the [k]-th call
    (from 0) of [baremetal_client.node.get] returns for a node, [None] when
    it returns no node; [inventory] is the list of nodes [node.list]
    filters. *)
Record BaremetalClient : Type := {
  node_get_script : nat -> string -> option Node;
  inventory : list Node
}.

(** The [for _ in range(0, loops)] loop: [remaining] iterations are left
    and [attempt] calls of [node.get] were made. *)
Fixpoint provision_loop (baremetal_client : BaremetalClient)
    (node_uuid state : string) (sleep : Z) (remaining attempt : nat)
    : bool * list effect :=
  match remaining with
  | O => (false, [])
  | S remaining' =>
      match node_get_script baremetal_client attempt node_uuid with
      | None => (true, [NodeGet node_uuid])
      | Some node =>
          if String.eqb (provision_state node) state then
            (true, [NodeGet node_uuid])
          else
            let (b, t) := provision_loop baremetal_client node_uuid state
                            sleep remaining' (S attempt) in
            (b, NodeGet node_uuid :: Sleep sleep :: t)
      end
  end.

(** [loops] and [sleep] are keyword arguments with defaults 10 and 1;
    [None] is an argument left out. *)
Definition wait_for_provision_state (baremetal_client : BaremetalClient)
    (node_uuid state : string) (loops sleep : option Z) : bool * list effect :=
  provision_loop baremetal_client node_uuid state (getattr sleep 1%Z)
                 (Z.to_nat (getattr loops 10%Z)) 0.

(** The node fetched on an attempt has converged: it is gone or in the
    state waited for. *)
Definition converged (baremetal_client : BaremetalClient)
    (node_uuid state : string) (attempt : nat) : Prop :=
  match node_get_script baremetal_client attempt node_uuid with
  | None => True
  | Some node => provision_state node = state
  end.

(** [n] attempts that did not converge, each followed by its sleep. *)
Fixpoint failed_attempts (node_uuid : string) (sleep : Z) (n : nat)
    : list effect :=
  match n with
  | O => []
  | S n' => NodeGet node_uuid :: Sleep sleep :: failed_attempts node_uuid sleep n'
  end.

(** The number of calls of [node.get] in a trace. *)
Definition attempts (t : list effect) : nat :=
  List.length (filter (fun e => match e with NodeGet _ => true | _ => false end) t).

(** *** A scripted node used in examples *)

Definition mk_node (id state : string) : Node :=
  {| uuid := id; provision_state := state; instance_uuid := None;
     maintenance := false |}.

(** A node that stays in [enroll] for three attempts and is [manageable]
    from the fourth on. *)
Definition slow_client : BaremetalClient :=
  {| node_get_script := fun k id =>
       Some (mk_node id (if (k <? 3)%nat then "enroll" else "manageable"));
     inventory := [] |}.

(** A node that vanishes on the third attempt. *)
Definition vanishing_client : BaremetalClient :=
  {| node_get_script := fun k id =>
       if (k <? 2)%nat then Some (mk_node id "enroll") else None;
     inventory := [] |}.

(** ** wait_for_node_introspection *)

(** The inspector service: [get_status_script round node] is the status
    [inspector_client.get_status] returns for a node on a polling round
    (rounds are counted from 0, as the loop variable is). *)
Record InspectorClient : Type := {
  get_status_script : nat -> string -> Status
}.

(** [l.remove(x)]: the first occurrence of [x] goes.  (The [ValueError]
    for an absent [x] cannot occur below, where [x] comes from [l].) *)
Fixpoint py_remove (x : string) (l : list string) : list string :=
  match l with
  | [] => []
  | y :: rest => if String.eqb y x then rest else y :: py_remove x rest
  end.

(** [for node_uuid in node_uuids], whose body removes from the list it
    iterates over.  A Python list iterator is an index [i] into the live
    list: each step reads [node_uuids[i]] of the list as it is now and
    moves to [i + 1]; it stops when [i] reaches the current length.
    [fuel] bounds the steps; the length of the list is always enough
    (lemma [scan_nodes_fuel]).  The result is the list after the loop and
    the effects of the loop. *)
Fixpoint scan_nodes (fuel : nat) (get_status : string -> Status)
    (node_uuids : list string) (i : nat) : list string * list effect :=
  match fuel with
  | O => (node_uuids, [])
  | S fuel' =>
      match nth_error node_uuids i with
      | None => (node_uuids, [])
      | Some node_uuid =>
          let status := get_status node_uuid in
          if finished status then
            let (l, t) := scan_nodes fuel' get_status
                            (py_remove node_uuid node_uuids) (S i) in
            (l, GetStatus node_uuid :: Yield node_uuid status :: t)
          else
            let (l, t) := scan_nodes fuel' get_status node_uuids (S i) in
            (l, GetStatus node_uuid :: t)
      end
  end.

(** How a generator ends: its body returns, or raises. *)
Record GenEnd : Type := {
  gen_trace : list effect;
  gen_raised : option exn;
  outstanding : list string
}.

(** The [for _ in range(0, loops)] loop and the lines after it. *)
Fixpoint introspection_loop (inspector_client : InspectorClient)
    (node_uuids : list string) (sleep : Z) (remaining round : nat) : GenEnd :=
  match remaining with
  | O =>
      {| gen_trace :=
           if (1 <=? List.length node_uuids)%nat then
             [LogError ("Introspection didn't finish for nodes "
                        ++ String.concat "," node_uuids)%string]
           else [];
         gen_raised := None;
         outstanding := node_uuids |}
  | S remaining' =>
      let (l, t) := scan_nodes (List.length node_uuids)
                      (get_status_script inspector_client round)
                      node_uuids 0 in
      if (List.length l =? 0)%nat then
        {| gen_trace := t; gen_raised := Some StopIteration;
           outstanding := l |}
      else
        let r := introspection_loop inspector_client l sleep
                   remaining' (S round) in
        {| gen_trace := t ++ Sleep sleep :: gen_trace r;
           gen_raised := gen_raised r;
           outstanding := outstanding r |}
  end.

(** [loops] and [sleep] default to 220 and 10.  The copy
    [node_uuids = node_uuids[:]] keeps the caller's list out of reach. *)
Definition wait_for_node_introspection (inspector_client : InspectorClient)
    (node_uuids : list string) (loops sleep : option Z) : GenEnd :=
  introspection_loop inspector_client node_uuids (getattr sleep 10%Z)
                     (Z.to_nat (getattr loops 220%Z)) 0.

(** The pairs the generator produces, in order. *)
Definition yields (t : list effect) : list (string * Status) :=
  flat_map (fun e => match e with Yield u s => [(u, s)] | _ => [] end) t.

(** The nodes queried, in order. *)
Definition queried (t : list effect) : list string :=
  flat_map (fun e => match e with GetStatus u => [u] | _ => [] end) t.

(** What the consumer of the generator sees at its end: [StopIteration]
    out of the body is the end of the sequence, as a return is; any other
    exception reaches the consumer. *)
Definition consumer_error (r : GenEnd) : option exn :=
  match gen_raised r with
  | Some StopIteration => None
  | Some e => Some e
  | None => None
  end.

(** The effects of the first polling round alone. *)
Definition first_round (inspector_client : InspectorClient)
    (node_uuids : list string) : list effect :=
  snd (scan_nodes (List.length node_uuids)
         (get_status_script inspector_client 0) node_uuids 0).

(** *** Scripted inspectors used in examples *)

Definition done : Status := {| finished := true; error := None |}.
Definition running : Status := {| finished := false; error := None |}.

(** Node [a] is finished from the first round on, [b] from the second,
    any other node never. *)
Definition abc_inspector : InspectorClient :=
  {| get_status_script := fun round node =>
       if String.eqb node "a" then done
       else if String.eqb node "b" then
              (if (1 <=? round)%nat then done else running)
       else running |}.

(** Every node is finished at once. *)
Definition prompt_inspector : InspectorClient :=
  {| get_status_script := fun _ _ => done |}.

(** ** check_nodes_count *)

Definition is_associated (node : Node) : bool :=
  match instance_uuid node with
  | Some _ => true
  | None => false
  end.

(** [baremetal_client.node.list(associated=..., maintenance=...)]: the
    nodes of the inventory that pass the filters given; [None] is a filter
    left out. *)
Definition node_list (baremetal_client : BaremetalClient)
    (associated maintenance_filter : option bool) : list Node :=
  filter (fun node =>
            match associated with
            | Some a => Bool.eqb (is_associated node) a
            | None => true
            end &&
            match maintenance_filter with
            | Some m => Bool.eqb (maintenance node) m
            | None => true
            end)
         (inventory baremetal_client).

Definition not_found_in_stack (param : string) : string :=
  ("Parameter '" ++ param ++ "' was not found in existing stack")%string.

Definition not_enough_nodes (available requested : Z) : string :=
  ("Not enough nodes - available: " ++ str_of_int available
   ++ ", requested: " ++ str_of_int requested)%string.

Section CheckNodesCount.

(** The builtin [int] on a string: the integer read, or the exception
    the builtin raises. *)
Variable py_int : string -> result Z.

(** The loop [for param in defaults] of an existing stack. *)
Fixpoint count_from_stack (stack : Stack) (parameters : dict Z)
    (params : list string) (count : Z) : result Z :=
  match params with
  | [] => Ok count
  | param :: rest =>
      match dict_get (stack_parameters stack) param with
      | None => Raise (ValueError (not_found_in_stack param))
      | Some recorded =>
          current <- py_int recorded ;;
          count_from_stack stack parameters rest
            (count + getattr (dict_get parameters param) current)%Z
      end
  end.

(** The loop [for param, default in defaults.items()]. *)
Fixpoint count_from_defaults (parameters : dict Z) (defaults : dict Z)
    (count : Z) : Z :=
  match defaults with
  | [] => count
  | (param, default) :: rest =>
      count_from_defaults parameters rest
        (count + getattr (dict_get parameters param) default)%Z
  end.

(** Lines 532 to 543: the count requested. *)
Definition requested_count (stack : option Stack) (parameters : dict Z)
    (defaults : dict Z) : result Z :=
  match stack with
  | Some s => count_from_stack s parameters (dict_keys defaults) 0%Z
  | None => Ok (count_from_defaults parameters defaults 0%Z)
  end.

Definition check_nodes_count (baremetal_client : BaremetalClient)
    (stack : option Stack) (parameters : dict Z) (defaults : dict Z)
    : result bool :=
  count <- requested_count stack parameters defaults ;;
  let associated :=
    Z.of_nat (List.length (node_list baremetal_client (Some true) None)) in
  let available :=
    Z.of_nat (List.length (node_list baremetal_client (Some false)
                             (Some false))) in
  let ironic_nodes_count := (associated + available)%Z in
  if (count >? ironic_nodes_count)%Z then
    Raise (DeploymentError (not_enough_nodes ironic_nodes_count count))
  else Ok true.

(** The count the stack has on record for a parameter (0 where there is
    none to read). *)
Definition recorded_count (stack : Stack) (param : string) : Z :=
  match dict_get (stack_parameters stack) param with
  | Some recorded =>
      match py_int recorded with
      | Ok current => current
      | Raise _ => 0%Z
      end
  | None => 0%Z
  end.

(** The stack has a readable record for a parameter. *)
Definition on_record (stack : Stack) (param : string) : Prop :=
  exists recorded current,
    dict_get (stack_parameters stack) param = Some recorded /\
    py_int recorded = Ok current.

(** The requested count as the specification words it: with a stack,
    each parameter's count is the stack's recorded value; without one,
    the override falling back to the default. *)
Definition requested_count_by_record (stack : option Stack)
    (parameters : dict Z) (defaults : dict Z) : result Z :=
  match stack with
  | Some s =>
      fold_left
        (fun acc param =>
           count <- acc ;;
           match dict_get (stack_parameters s) param with
           | None => Raise (ValueError (not_found_in_stack param))
           | Some recorded =>
               current <- py_int recorded ;; Ok (count + current)%Z
           end)
        (dict_keys defaults) (Ok 0%Z)
  | None => Ok (count_from_defaults parameters defaults 0%Z)
  end.

End CheckNodesCount.

(** The nodes the admission check counts as usable. *)
Definition usable_nodes (nodes : list Node) : Z :=
  (Z.of_nat (List.length (filter is_associated nodes)) +
   Z.of_nat (List.length
               (filter (fun node => negb (is_associated node)
                                    && negb (maintenance node)) nodes)))%Z.

(** The sum of a list of integers. *)
Definition sum (l : list Z) : Z := fold_right Z.add 0%Z l.

(** *** Data used in examples *)

(** A reader of plain decimal numerals, standing for [int] in examples. *)
Definition decimal_int (s : string) : result Z :=
  match NilZero.int_of_string s with
  | Some n => Ok (Z.of_int n)
  | None =>
      Raise (ValueError ("invalid literal for int() with base 10: '"
                         ++ s ++ "'")%string)
  end.

Definition node_in_use (id instance : string) : Node :=
  {| uuid := id; provision_state := "active"; instance_uuid := Some instance;
     maintenance := false |}.

Definition node_free (id : string) (in_maintenance : bool) : Node :=
  {| uuid := id; provision_state := "available"; instance_uuid := None;
     maintenance := in_maintenance |}.

(** Two associated nodes, three free ones and one free node in
    maintenance. *)
Definition five_usable : BaremetalClient :=
  {| node_get_script := fun _ _ => None;
     inventory := [ node_in_use "n1" "i1"; node_free "n2" false;
                    node_in_use "n3" "i3"; node_free "n4" true;
                    node_free "n5" false; node_free "n6" false ] |}.

Definition scale_defaults : dict Z :=
  [ ("ControllerCount", 1%Z); ("ComputeCount", 1%Z);
    ("CephStorageCount", 0%Z) ].

(** A deployed stack with one controller and one compute node. *)
Definition deployed : Stack :=
  {| stack_name := "overcloud";
     stack_parameters := [ ("ControllerCount", "1"); ("ComputeCount", "1");
                           ("CephStorageCount", "0") ] |}.

(** A stack whose parameters lack [CephStorageCount]. *)
Definition incomplete : Stack :=
  {| stack_name := "overcloud";
     stack_parameters := [ ("ControllerCount", "1"); ("ComputeCount", "1") ] |}.

(** ** file_checksum *)

(** What a path names, as far as [os.path.isfile] and [open] tell. *)
Inductive Path : Type :=
| RegularFile (content : list byte)
| NotRegular.

Definition not_regular_file (filepath : string) : string :=
  ("The given file " ++ filepath ++ " is not a regular file")%string.

Definition hex_digits : string := "0123456789abcdef".

Definition hex_digit (n : N) : ascii :=
  match String.get (N.to_nat n) hex_digits with
  | Some c => c
  | None => "0"%char
  end.

(** The hexadecimal rendering [hexdigest] gives of a digest: two lowercase
    digits a byte. *)
Fixpoint hexlify (l : list byte) : string :=
  match l with
  | [] => ""
  | b :: rest =>
      String (hex_digit (Byte.to_N b / 16))
             (String (hex_digit (Byte.to_N b mod 16)) (hexlify rest))
  end.

Definition is_lower_hex (c : ascii) : bool :=
  existsb (Ascii.eqb c) (list_ascii_of_string hex_digits).

Section Checksum.

(** [hashlib.md5] is taken as given: the type of its hash objects, a
    fresh object, [update] and [digest]. *)
Variable Hash : Type.
Variable md5 : Hash.
Variable update : Hash -> list byte -> Hash.
Variable digest : Hash -> list byte.

Definition hexdigest (h : Hash) : string := hexlify (digest h).

(** The [while True] loop over [f.read(size)]: [unread] is the content
    from the file position on, and a read of a regular file returns the
    next [size] bytes, fewer at the end of the file, none after it. *)
Equations? read_loop (size : nat) (checksum : Hash) (unread : list byte)
    : Hash by wf (List.length unread) lt :=
  read_loop size checksum unread with inspect (firstn size unread) := {
    | exist _ [] _ => checksum;
    | exist _ (b :: fragment) Hread =>
        read_loop size (update checksum (b :: fragment)) (skipn size unread)
  }.
Proof.
  rewrite length_skipn.
  assert (Hlen : List.length (firstn size unread) = S (List.length fragment))
    by (rewrite Hread; reflexivity).
  rewrite length_firstn in Hlen. lia.
Qed.

Definition file_checksum (filesystem : string -> Path) (filepath : string)
    : result string :=
  match filesystem filepath with
  | NotRegular => Raise (ValueError (not_regular_file filepath))
  | RegularFile content =>
      Ok (hexdigest (read_loop (Z.to_nat 65536) md5 content))
  end.

(** The reference: the digest of the whole content given to the hash
    object in one piece. *)
Definition whole_file_checksum (content : list byte) : string :=
  hexdigest (update md5 content).

End Checksum.

(** *** A hash object used in examples *)

(** A stand-in for a hash object: it keeps the bytes it was given and its
    digest is their count modulo 256 and their sum modulo 256. *)
Definition toy_digest (h : list byte) : list byte :=
  match Byte.of_N (N.of_nat (List.length h) mod 256),
        Byte.of_N (fold_right (fun b acc => (Byte.to_N b + acc) mod 256)%N 0%N h)
  with
  | Some n, Some s => [n; s]
  | _, _ => []
  end.

Definition abc : list byte := [x61; x62; x63]%byte.

(** ["abc"] repeated 21846 times: 65538 bytes, two more than a chunk. *)
Definition abc_repeated : list byte :=
  List.concat (repeat abc (N.to_nat 21846)).

Definition one_file (name : string) (content : list byte) : string -> Path :=
  fun filepath =>
    if String.eqb filepath name then RegularFile content else NotRegular.

(** ** generate_overcloud_passwords *)

Definition _MIN_PASSWORD_SIZE : nat := 25.

Definition _PASSWORD_NAMES : list string :=
  [ "OVERCLOUD_ADMIN_PASSWORD";
    "OVERCLOUD_ADMIN_TOKEN";
    "OVERCLOUD_CEILOMETER_PASSWORD";
    "OVERCLOUD_CEILOMETER_SECRET";
    "OVERCLOUD_CINDER_PASSWORD";
    "OVERCLOUD_DEMO_PASSWORD";
    "OVERCLOUD_GLANCE_PASSWORD";
    "OVERCLOUD_HEAT_PASSWORD";
    "OVERCLOUD_HEAT_STACK_DOMAIN_PASSWORD";
    "OVERCLOUD_NEUTRON_PASSWORD";
    "OVERCLOUD_NOVA_PASSWORD";
    "OVERCLOUD_SWIFT_HASH";
    "OVERCLOUD_SWIFT_PASSWORD" ].

Definition LF : ascii := "010"%char.
Definition CR : ascii := "013"%char.
Definition newline : string := String LF "".

Definition is_line_break (c : ascii) : bool := Ascii.eqb c LF || Ascii.eqb c CR.

Definition is_equals (c : ascii) : bool := Ascii.eqb c "="%char.

(** Some character of the string satisfies [p]. *)
Fixpoint has_char (p : ascii -> bool) (s : string) : bool :=
  match s with
  | EmptyString => false
  | String c rest => p c || has_char p rest
  end.

(** [s.splitlines()] on a byte string: lines end at LF, CR or CRLF, the
    line ends are dropped, and an end of line at the end of the string
    opens no further line. *)
Fixpoint splitlines (s : string) : list string :=
  match s with
  | EmptyString => []
  | String c rest =>
      if Ascii.eqb c LF then EmptyString :: splitlines rest
      else if Ascii.eqb c CR then
        EmptyString ::
          match rest with
          | String c' rest' =>
              if Ascii.eqb c' LF then splitlines rest' else splitlines rest
          | EmptyString => []
          end
      else
        match splitlines rest with
        | [] => [String c EmptyString]
        | line :: lines => String c line :: lines
        end
  end.

(** [s.split(sep)] for a separator of one character: every occurrence
    separates, so there is one part more than there are separators. *)
Fixpoint split (sep : ascii) (s : string) : list string :=
  match s with
  | EmptyString => [EmptyString]
  | String c rest =>
      if Ascii.eqb c sep then EmptyString :: split sep rest
      else
        match split sep rest with
        | [] => [String c EmptyString]
        | part :: parts => String c part :: parts
        end
  end.

Definition bad_dict_element (i len : nat) : string :=
  ("dictionary update sequence element #" ++ str_of_int (Z.of_nat i)
   ++ " has length " ++ str_of_int (Z.of_nat len)
   ++ "; 2 is required")%string.

(** [dict(elements)]: each element must be a pair; a key met again takes
    the later value. *)
Fixpoint dict_of_pairs (elements : list (list string)) (i : nat)
    (d : dict string) : result (dict string) :=
  match elements with
  | [] => Ok d
  | element :: rest =>
      match element with
      | [k; v] => dict_of_pairs rest (S i) (dict_set d k v)
      | _ => Raise (ValueError (bad_dict_element i (List.length element)))
      end
  end.

(** Line 65: [dict(line.split('=') for line in f.read().splitlines())]. *)
Definition read_passwords (content : string) : result (dict string) :=
  dict_of_pairs (map (split "="%char) (splitlines content)) 0 [].

(** Lines 72 to 74: one ["{0}={1}\n"] for each item, in the order the
    list gives the items (the order [passwords.items()] yields them is
    the hash table's; the properties of the file are proved for every
    order of the items). *)
Fixpoint write_passwords (passwords : dict string) : string :=
  match passwords with
  | [] => EmptyString
  | (name, password) :: rest =>
      (name ++ "=" ++ password ++ newline ++ write_passwords rest)%string
  end.

(** The truth value of [passwords.get(name)]: false for a missing name and
    for an empty value. *)
Definition truthy (value : option string) : bool :=
  match value with
  | Some EmptyString => false
  | Some _ => true
  | None => false
  end.

Section Passwords.

(** [passutils.generate_password] draws from a random source; the source
    is threaded as a state. *)
Variable Rng : Type.
Variable generate_password : Rng -> nat -> string * Rng.

(** The loop [for name in _PASSWORD_NAMES]. *)
Fixpoint fill_passwords (names : list string) (passwords : dict string)
    (rng : Rng) : dict string * Rng :=
  match names with
  | [] => (passwords, rng)
  | name :: rest =>
      if truthy (dict_get passwords name) then
        fill_passwords rest passwords rng
      else
        let (password, rng') := generate_password rng _MIN_PASSWORD_SIZE in
        fill_passwords rest (dict_set passwords name password) rng'
  end.

(** [existing] is the content of [output_file] when it is a regular
    file, [None] when there is no such file.  The result is the
    dictionary returned, the content written and the random source
    left. *)
Definition generate_overcloud_passwords (existing : option string)
    (rng : Rng) : result (dict string * string * Rng) :=
  passwords <- match existing with
               | Some content => read_passwords content
               | None => Ok []
               end ;;
  let (passwords', rng') := fill_passwords _PASSWORD_NAMES passwords rng in
  Ok (passwords', write_passwords passwords', rng').

End Passwords.

(** A name or value that the file format carries unharmed: no ['='] and no
    end of line in it. *)
Definition clean (s : string) : Prop :=
  has_char is_equals s = false /\ has_char is_line_break s = false.

(** *** A password source used in examples *)

(** Passwords ["a...a"], ["b...b"], ... of the size asked for. *)
Definition letters (rng : nat) (size : nat) : string * nat :=
  (string_of_list_ascii (repeat (ascii_of_nat (97 + rng)) size), S rng).

(** The number of occurrences of a character in a string. *)
Fixpoint count_char (sep : ascii) (s : string) : nat :=
  match s with
  | EmptyString => 0
  | String c rest =>
      if Ascii.eqb c sep then S (count_char sep rest) else count_char sep rest
  end.

(** The line written for an item, without its newline. *)
Definition line_of (item : string * string) : string :=
  (fst item ++ "=" ++ snd item)%string.

(** A first run with no file yet: what it returns and writes. *)
Definition sample_passwords : dict string :=
  Eval cbv in
    match generate_overcloud_passwords letters None 0 with
    | Ok (passwords, _, _) => passwords
    | Raise _ => []
    end.

Definition sample_file : string :=
  Eval cbv in
    match generate_overcloud_passwords letters None 0 with
    | Ok (_, file, _) => file
    | Raise _ => EmptyString
    end.

(** A dictionary with one value that holds an end of line and an ['=']. *)
Definition tangled : dict string :=
  [("A", String "x" (String LF "B=y"))].

(** A dictionary with an empty value. *)
Definition blank : dict string := [("EXTRA", EmptyString)].

(** ** all_unique *)

Section AllUnique.

Variable A : Type.
Variable A_eq_dec : forall a b : A, {a = b} + {a <> b}.

(** [set(x)]: one of each element. *)
Definition py_set (x : list A) : list A := nodup A_eq_dec x.

Definition all_unique (x : list A) : bool :=
  (List.length (py_set x) =? List.length x)%nat.

End AllUnique.

(** ** get_overcloud_endpoint, get_service_ips *)

(** An entry of the [outputs] list of [stack.to_dict()]. *)
Record Output : Type := {
  output_key : string;
  output_value : string
}.

(** [stack.to_dict()], as far as these functions read it: the value under
    ['outputs'], [None] when the key is absent. *)
Record StackDict : Type := {
  outputs : option (list Output)
}.

(** The loop of [get_overcloud_endpoint]; falling off the loop returns
    [None]. *)
Fixpoint find_keystone_url (outs : list Output) : option string :=
  match outs with
  | [] => None
  | output :: rest =>
      if String.eqb (output_key output) "KeystoneURL" then
        Some (output_value output)
      else find_keystone_url rest
  end.

Definition get_overcloud_endpoint (stack : StackDict) : option string :=
  find_keystone_url (getattr (outputs stack) []).

(** The loop of [get_service_ips], from the dictionary built so far. *)
Fixpoint collect_service_ips (outs : list Output) (service_ips : dict string)
    : dict string :=
  match outs with
  | [] => service_ips
  | output :: rest =>
      collect_service_ips rest
        (dict_set service_ips (output_key output) (output_value output))
  end.

Definition get_service_ips (stack : StackDict) : dict string :=
  collect_service_ips (getattr (outputs stack) []) [].

(** The value of the last output with a given key. *)
Definition last_output_value (outs : list Output) (key : string)
    : option string :=
  option_map output_value
    (find (fun output => String.eqb (output_key output) key) (rev outs)).

(** *** Outputs used in examples *)

Definition mk_output (key value : string) : Output :=
  {| output_key := key; output_value := value |}.

Definition deployed_outputs : StackDict :=
  {| outputs := Some [ mk_output "PublicVip" "192.0.2.5";
                       mk_output "KeystoneURL" "http://192.0.2.5:5000/v2.0";
                       mk_output "CeilometerInternalVip" "192.0.2.6" ] |}.

(** Two outputs under the key [KeystoneURL]. *)
Definition doubled_outputs : StackDict :=
  {| outputs := Some [ mk_output "KeystoneURL" "http://192.0.2.5:5000/v2.0";
                       mk_output "KeystoneURL" "http://192.0.2.9:5000/v2.0" ] |}.

(** ** Observations on traces *)

(** The lengths of the sleeps of a trace, in order. *)
Definition sleeps (t : list effect) : list Z :=
  flat_map (fun e => match e with Sleep s => [s] | _ => [] end) t.

(** The orchestration client with another script. *)
Definition with_script (client : OrchestrationClient)
    (script : list (list Event)) : OrchestrationClient :=
  {| stacks_get := stacks_get client; events_script := script |}.

(** The script of [create_client] with a batch the service would return
    after the stack is complete. *)
Definition longer_client : OrchestrationClient :=
  with_script create_client
    (create_script ++ [[ mk_event "e5" "overcloud" "CREATE_FAILED" ]]).

(** The fragments the read loop gets from a file, in order: the loop run
    on a hash object that only records what it is fed. *)
Definition fragments (size : nat) (content : list byte) : list (list byte) :=
  read_loop (fun recorded fragment => recorded ++ [fragment]) size [] content.

(** ** get_password *)

(** What [__password_cache[pass_name]] gives: the value, or the
    [KeyError] of a name the dictionary lacks. *)
Inductive lookup : Type :=
| Found (value : string)
| KeyError (key : string).

Definition subscript (d : dict string) (key : string) : lookup :=
  match dict_get d key with
  | Some value => Found value
  | None => KeyError key
  end.

(** What [get_password] works on: the module variable [__password_cache]
    ([None] until the first call), the file [tripleo-overcloud-passwords]
    ([None] when there is no such file) and the random source. *)
Record PasswordState (Rng : Type) : Type := {
  password_cache : option (dict string);
  password_file : option string;
  password_rng : Rng
}.

Section GetPassword.

Variable Rng : Type.
Variable generate_password : Rng -> nat -> string * Rng.

(** The result is what the subscript gives and the state left.  An
    exception out of [generate_overcloud_passwords] leaves the cache
    unset. *)
Definition get_password (state : PasswordState Rng) (pass_name : string)
    : result (lookup * PasswordState Rng) :=
  match password_cache state with
  | Some cache => Ok (subscript cache pass_name, state)
  | None =>
      generated <- generate_overcloud_passwords generate_password
                     (password_file state) (password_rng state) ;;
      let '(passwords, file, rng) := generated in
      Ok (subscript passwords pass_name,
          {| password_cache := Some passwords;
             password_file := Some file;
             password_rng := rng |})
  end.

End GetPassword.

(** A fresh process: nothing cached yet. *)
Definition fresh {Rng : Type} (file : option string) (rng : Rng)
    : PasswordState Rng :=
  {| password_cache := None; password_file := file; password_rng := rng |}.

(** The names of a list that a dictionary lacks, in the order of the
    list. *)
Definition missing_names (names : list string) (d : dict string)
    : list string :=
  filter (fun name => negb (existsb (String.eqb name) (dict_keys d))) names.

(** ** constants.SERVICE_LIST *)

Definition WEBROOT : string := "/dashboard/".

Definition SERVICE_LIST : dict (dict string) :=
  [ ("ceilometer", [("password_field", "OVERCLOUD_CEILOMETER_PASSWORD")]);
    ("cinder", [("password_field", "OVERCLOUD_CINDER_PASSWORD")]);
    ("cinderv2", [("password_field", "OVERCLOUD_CINDER_PASSWORD")]);
    ("glance", [("password_field", "OVERCLOUD_GLANCE_PASSWORD")]);
    ("heat", [("password_field", "OVERCLOUD_HEAT_PASSWORD")]);
    ("neutron", [("password_field", "OVERCLOUD_NEUTRON_PASSWORD")]);
    ("nova", [("password_field", "OVERCLOUD_NOVA_PASSWORD")]);
    ("novav3", [("password_field", "OVERCLOUD_NOVA_PASSWORD")]);
    ("swift", [("password_field", "OVERCLOUD_SWIFT_PASSWORD")]);
    ("horizon", [("port", "80");
                 ("path", WEBROOT);
                 ("admin_path", (WEBROOT ++ "admin")%string)]) ].

(** What a run starts from: the dictionary read from the file, empty when
    there is no file. *)
Definition stored_passwords (existing : option string) : dict string :=
  match existing with
  | Some content =>
      match read_passwords content with
      | Ok stored => stored
      | Raise _ => []
      end
  | None => []
  end.

(** ** set_nodes_state *)

(** The effects of [set_nodes_state], in program order: the request sent
    to the bare-metal service, the wait that follows it with its own
    effects, the node yielded, the line printed for a node that did not
    reach the target state. *)
Inductive state_effect : Type :=
| SetProvisionState (node_uuid transition : string)
| Waited (t : list effect)
| YieldNode (node_uuid : string)
| PrintLine (line : string).

(** The generator [set_nodes_state].  Each wait uses the default budget
    of [wait_for_provision_state] and reads the script of its node from
    the start: the script of a node says what [node.get] answers for it
    once the transition was requested. *)
Fixpoint set_nodes_state (baremetal_client : BaremetalClient)
    (nodes : list Node) (transition target_state : string)
    (skipped_states : list string) : list state_effect :=
  match nodes with
  | [] => []
  | node :: rest =>
      if existsb (String.eqb (provision_state node)) skipped_states then
        set_nodes_state baremetal_client rest transition target_state
                        skipped_states
      else
        let (reached, t) :=
          wait_for_provision_state baremetal_client (uuid node) target_state
                                   None None in
        SetProvisionState (uuid node) transition
        :: Waited t
        :: (if reached then YieldNode (uuid node)
            else PrintLine ("FAIL: State not updated for Node "
                        ++ uuid node)%string)
        :: set_nodes_state baremetal_client rest transition target_state
                           skipped_states
  end.

(** The nodes yielded, the requests sent and the lines printed. *)
Definition yielded_nodes (t : list state_effect) : list string :=
  flat_map (fun e => match e with YieldNode u => [u] | _ => [] end) t.

Definition requests (t : list state_effect) : list (string * string) :=
  flat_map (fun e => match e with
                     | SetProvisionState u tr => [(u, tr)]
                     | _ => []
                     end) t.

Definition printed (t : list state_effect) : list string :=
  flat_map (fun e => match e with PrintLine line => [line] | _ => [] end) t.

(** *** Nodes used in examples *)

(** Node [n1] is manageable from the fourth answer on, node [n2] never,
    node [n3] is already active. *)
Definition mixed_client : BaremetalClient :=
  {| node_get_script := fun k id =>
       if String.eqb id "n1" then
         Some (mk_node id (if (k <? 3)%nat then "enroll" else "manageable"))
       else Some (mk_node id "enroll");
     inventory := [] |}.

Definition mixed_nodes : list Node :=
  [ mk_node "n1" "enroll"; mk_node "n3" "active"; mk_node "n2" "enroll" ].

(** ** check_hypervisor_stats *)

(** The dictionary of [hypervisors.statistics().to_dict()], as far as it
    is read: the values under ['count'], ['memory_mb'] and ['vcpus']. *)
Record Statistics : Type := {
  hypervisor_count : Z;
  memory_mb : Z;
  vcpus : Z
}.

(** [nodes], [memory] and [vcpu] default to 1, 0 and 0; the result is the
    statistics or [None]. *)
Definition check_hypervisor_stats (statistics : Statistics)
    (nodes memory vcpu : option Z) : option Statistics :=
  if forallb (fun b : bool => b)
       [ (hypervisor_count statistics >=? getattr nodes 1)%Z;
         (memory_mb statistics >=? getattr memory 0)%Z;
         (vcpus statistics >=? getattr vcpu 0)%Z ]
  then Some statistics
  else None.

(** ** event_log_formatter *)

(** An event as the formatter reads it; an attribute may be absent. *)
Record EventRecord : Type := {
  event_time : option string;
  rsrc_name : option string;
  rsrc_status : option string;
  rsrc_status_reason : option string
}.

(** [s.replace(old, new)] for single characters. *)
Fixpoint replace_char (old new : ascii) (s : string) : string :=
  match s with
  | EmptyString => EmptyString
  | String c rest =>
      String (if Ascii.eqb c old then new else c) (replace_char old new rest)
  end.

(** [sep.join(lines)]. *)
Fixpoint join (sep : string) (lines : list string) : string :=
  match lines with
  | [] => EmptyString
  | [line] => line
  | line :: rest => (line ++ sep ++ join sep rest)%string
  end.

(** One line of the log:
    ["%(event_time)s [%(rsrc_name)s]: %(rsrc_status)s  %(rsrc_status_reason)s"]. *)
Definition format_event (event : EventRecord) : string :=
  (replace_char "T" " " (getattr (event_time event) "")
   ++ " [" ++ getattr (rsrc_name event) "" ++ "]: "
   ++ getattr (rsrc_status event) "" ++ "  "
   ++ getattr (rsrc_status_reason event) "")%string.

Definition event_log_formatter (events : list EventRecord) : string :=
  join newline (map format_event events).

(** No attribute of the event holds an end of line. *)
Definition one_line (event : EventRecord) : Prop :=
  has_char is_line_break (getattr (event_time event) "") = false /\
  has_char is_line_break (getattr (rsrc_name event) "") = false /\
  has_char is_line_break (getattr (rsrc_status event) "") = false /\
  has_char is_line_break (getattr (rsrc_status_reason event) "") = false.

(** *** Events used in examples *)

Definition logged (time name status reason : string) : EventRecord :=
  {| event_time := Some time; rsrc_name := Some name;
     rsrc_status := Some status; rsrc_status_reason := Some reason |}.

Definition two_events : list EventRecord :=
  [ logged "2015-06-01T10:00:00Z" "Controller" "CREATE_IN_PROGRESS"
           "state changed";
    {| event_time := None; rsrc_name := Some "overcloud";
       rsrc_status := Some "CREATE_COMPLETE"; rsrc_status_reason := None |} ].

(** ** Dictionaries as mappings, and the passwords drawn *)

(** Two dictionaries that hold the same value, or none, under every
    name.  Python 2 leaves the order in which a dictionary is iterated to
    its hash table; what does not depend on that order is said with
    [same_mapping] and for every order of the items. *)
Definition same_mapping {V : Type} (d d' : dict V) : Prop :=
  forall name, dict_get d name = dict_get d' name.

(** The names of a list that have no value, or an empty one, in a
    dictionary, in the order of the list. *)
Definition names_to_fill (names : list string) (passwords : dict string)
    : list string :=
  filter (fun name => negb (truthy (dict_get passwords name))) names.

(** The canonical names a run has to generate a password for. *)
Definition password_gaps (stored : dict string) : list string :=
  names_to_fill _PASSWORD_NAMES stored.

Section DrawPasswords.

Variable Rng : Type.
Variable generate_password : Rng -> nat -> string * Rng.

(** One password of the canonical size for each name of a list, drawn
    from the random source one after the other: the names with their
    passwords, and the random source left. *)
Fixpoint draw_passwords (rng : Rng) (names : list string)
    : list (string * string) * Rng :=
  match names with
  | [] => ([], rng)
  | name :: rest =>
      let (password, rng1) := generate_password rng _MIN_PASSWORD_SIZE in
      let (drawn, rng2) := draw_passwords rng1 rest in
      ((name, password) :: drawn, rng2)
  end.

End DrawPasswords.

(** A file with a name that has its password, a name with an empty value
    and the other canonical names missing. *)
Definition gap_file : string :=
  ("OVERCLOUD_ADMIN_TOKEN=secret" ++ newline
   ++ "OVERCLOUD_NOVA_PASSWORD=" ++ newline)%string.

(* ===================================================================== *)
(** * Part II: properties                                                 *)
(* ===================================================================== *)

(** ** Strings and lists *)

Lemma append_inj_r (a b c : string) : (a ++ b = a ++ c)%string -> b = c.
Proof.
  induction a as [|x a IH]; simpl; intros H.
  - exact H.
  - injection H as H. auto.
Qed.

Lemma py_last_cons {A : Type} (x : A) (l : list A) :
  py_last (x :: l) = match py_last l with
                     | Some e => Some e
                     | None => Some x
                     end.
Proof.
  destruct l as [|y l]; [reflexivity|].
  change (py_last (x :: y :: l)) with (py_last (y :: l)).
  destruct (py_last (y :: l)) eqn:E; [reflexivity|].
  exfalso. revert y E. induction l as [|z l IH]; intros y E; [discriminate|].
  exact (IH z E).
Qed.

Lemma py_last_app {A : Type} (a b : list A) :
  py_last (a ++ b) = match py_last b with
                     | Some e => Some e
                     | None => py_last a
                     end.
Proof.
  induction a as [|x a IH].
  - simpl. destruct (py_last b); reflexivity.
  - rewrite <- app_comm_cons, !py_last_cons, IH.
    destruct (py_last b); reflexivity.
Qed.

Lemma py_last_nonempty {A : Type} (l : list A) :
  l <> [] -> exists e, py_last l = Some e.
Proof.
  induction l as [|x l IH]; intros H; [congruence|].
  destruct l as [|y l]; [exists x; reflexivity|].
  destruct IH as [e He]; [discriminate|]. exists e. exact He.
Qed.

(** ** wait_for_stack_ready *)

Lemma check_event_signals own action e b :
  check_event own action e = Some b <->
  (b = true /\ signals own action "_COMPLETE" e) \/
  (b = false /\ signals own action "_FAILED" e).
Proof.
  unfold check_event, signals.
  destruct (String.eqb_spec (getattr (resource_name e) "") own) as [Hn|Hn].
  - destruct (String.eqb_spec (getattr (resource_status e) "")
                (action ++ "_COMPLETE")%string) as [Hc|Hc].
    + split.
      * intros H; injection H as <-. left. auto.
      * intros [[-> _]|[-> [_ Hf]]]; [reflexivity|].
        rewrite Hc in Hf. apply append_inj_r in Hf. discriminate.
    + destruct (String.eqb_spec (getattr (resource_status e) "")
                  (action ++ "_FAILED")%string) as [Hf|Hf].
      * split.
        -- intros H; injection H as <-. right. auto.
        -- intros [[-> [_ Hc']]|[-> _]]; [contradiction|reflexivity].
      * split; [discriminate|].
        intros [[_ [_ H]]|[_ [_ H]]]; contradiction.
  - split; [discriminate|].
    intros [[_ [H _]]|[_ [H _]]]; contradiction.
Qed.

Lemma scan_events_app own action pre post :
  scan_events own action (pre ++ post) =
  match scan_events own action pre with
  | Some b => Some b
  | None => scan_events own action post
  end.
Proof.
  induction pre as [|e pre IH]; simpl; [reflexivity|].
  destruct (check_event own action e); [reflexivity|exact IH].
Qed.

Lemma scan_events_none own action events :
  (forall e, In e events -> check_event own action e = None) ->
  scan_events own action events = None.
Proof.
  induction events as [|e events IH]; simpl; intros H; [reflexivity|].
  rewrite (H e) by auto. apply IH. intros; apply H; auto.
Qed.

(** Batching is invisible in the result: the loop returns what one scan of
    the whole log returns. *)
Lemma poll_loop_returned own action marker script :
  returned (poll_loop own action marker script) =
  scan_events own action (List.concat script).
Proof.
  revert marker. induction script as [|events rest IH]; intros marker.
  - reflexivity.
  - cbn [List.concat]. rewrite scan_events_app.
    destruct events as [|e events]; [apply IH|].
    cbn [poll_loop List.length Nat.leb].
    destruct (scan_events own action (e :: events)); [reflexivity|apply IH].
Qed.

Example wait_for_stack_ready_create :
  wait_for_stack_ready create_client "overcloud" None "CREATE" =
  {| returned := Some true; last_marker := Some "e4";
     poll_trace := [ GetEvents "overcloud" None; Sleep 5;
                     GetEvents "overcloud" (Some "e2"); Sleep 5;
                     GetEvents "overcloud" (Some "e2"); Sleep 5;
                     GetEvents "overcloud" (Some "e3") ] |}.
Proof. reflexivity. Qed.

Example wait_for_stack_ready_not_found :
  returned (wait_for_stack_ready create_client "undercloud" None "CREATE")
  = Some false.
Proof. reflexivity. Qed.

(** C1. Scanning the scripted batches in order, the first event that
    carries the stack's own name and the status [<ACTION>_COMPLETE] or
    [<ACTION>_FAILED] ends the poll: with [True] for the former, with
    [False] for the latter.  Events of other resources never end it: a
    script holding only such events leaves the poller polling. *)
Theorem wait_for_stack_ready_first_signal :
  forall (client : OrchestrationClient) (name : string)
         (marker : option string) (action : string) (stack : Stack),
    get_stack client name = Some stack ->
    let own := stack_name stack in
    let log := List.concat (events_script client) in
    let r := returned (wait_for_stack_ready client name marker action) in
    (forall pre e post,
        log = pre ++ e :: post ->
        (forall x, In x pre ->
           ~ signals own action "_COMPLETE" x /\
           ~ signals own action "_FAILED" x) ->
        (signals own action "_COMPLETE" e -> r = Some true) /\
        (signals own action "_FAILED" e -> r = Some false)) /\
    ((forall e, In e log -> getattr (resource_name e) "" <> own) ->
     r = None).
Proof.
  intros client name marker action stack Hstack own log r.
  assert (Hr : r = scan_events own action log).
  { unfold r, wait_for_stack_ready. rewrite Hstack. apply poll_loop_returned. }
  split.
  - intros pre e post Hlog Hpre.
    assert (Hnone : scan_events own action pre = None).
    { apply scan_events_none. intros x Hx.
      destruct (check_event own action x) as [b|] eqn:E; [|reflexivity].
      apply check_event_signals in E. destruct (Hpre x Hx) as [Hc Hf].
      destruct E as [[_ E]|[_ E]]; contradiction. }
    rewrite Hr, Hlog, scan_events_app, Hnone. simpl.
    split; intros Hsig.
    + assert (E : check_event own action e = Some true)
        by (apply check_event_signals; left; auto).
      rewrite E. reflexivity.
    + assert (E : check_event own action e = Some false)
        by (apply check_event_signals; right; auto).
      rewrite E. reflexivity.
  - intros Hother. rewrite Hr. apply scan_events_none. intros e He.
    destruct (check_event own action e) as [b|] eqn:E; [|reflexivity].
    apply check_event_signals in E.
    destruct E as [[_ [E _]]|[_ [E _]]]; elim (Hother e He E).
Qed.

Lemma wait_for_stack_ready_first_signal_witness :
  returned (wait_for_stack_ready create_client "overcloud" None "CREATE")
  = Some true.
Proof.
  refine (proj1 (proj1 (wait_for_stack_ready_first_signal
            create_client "overcloud" None "CREATE" (stack := overcloud)
            eq_refl)
          [ mk_event "e1" "Controller" "CREATE_COMPLETE";
            mk_event "e2" "overcloud" "CREATE_IN_PROGRESS";
            mk_event "e3" "Compute" "CREATE_FAILED" ]
          (mk_event "e4" "overcloud" "CREATE_COMPLETE") [] eq_refl _) _).
  - intros x [<-|[<-|[<-|[]]]]; split; intros [H1 H2]; discriminate.
  - split; reflexivity.
Defined.

Lemma marker_after_app marker log events :
  marker_after marker (log ++ events) =
  match py_last events with
  | Some e => event_id e
  | None => marker_after marker log
  end.
Proof.
  unfold marker_after. rewrite py_last_app.
  destruct (py_last events); reflexivity.
Qed.

(** One iteration of the loop, with the marker update written once. *)
Lemma poll_loop_cons own action marker events rest :
  poll_loop own action marker (events :: rest) =
  match scan_events own action events with
  | Some b =>
      {| returned := Some b; last_marker := marker_after marker events;
         poll_trace := [GetEvents own marker] |}
  | None =>
      let r := poll_loop own action (marker_after marker events) rest in
      {| returned := returned r; last_marker := last_marker r;
         poll_trace := GetEvents own marker :: Sleep 5 :: poll_trace r |}
  end.
Proof.
  destruct events as [|e events]; [reflexivity|].
  cbn [poll_loop List.length Nat.leb]. unfold marker_after.
  destruct (py_last_nonempty (l := e :: events)) as [x Hx]; [discriminate|].
  rewrite Hx. reflexivity.
Qed.

Lemma firstn_snoc_nth {A : Type} (l : list A) (k : nat) (x : A) :
  nth_error l k = Some x -> firstn (S k) l = firstn k l ++ [x].
Proof.
  revert k. induction l as [|y l IH]; intros [|k] H; try discriminate.
  - injection H as ->. reflexivity.
  - rewrite firstn_cons, (IH k H). reflexivity.
Qed.

Lemma fetched_length_mono {A : Type} (script : list (list A)) (j k : nat) :
  j <= k ->
  List.length (List.concat (firstn j script)) <=
  List.length (List.concat (firstn k script)).
Proof.
  revert j k. induction script as [|b script IH]; intros j k Hjk.
  - rewrite !firstn_nil. auto.
  - destruct j as [|j]; [simpl; lia|].
    destruct k as [|k]; [lia|].
    rewrite !firstn_cons. cbn [List.concat]. rewrite !length_app.
    specialize (IH j k). lia.
Qed.

Lemma markers_sent_round own m t :
  markers_sent (GetEvents own m :: Sleep 5 :: t) = m :: markers_sent t.
Proof. reflexivity. Qed.

Lemma markers_sent_call own m : markers_sent [GetEvents own m] = [m].
Proof. reflexivity. Qed.

Ltac poll_step :=
  rewrite poll_loop_cons in *; unfold rounds, marker_history in *;
  match goal with
  | |- context [scan_events ?o ?a ?ev] =>
      destruct (scan_events o a ev) eqn:?
  end;
  cbn [poll_trace returned last_marker] in *;
  rewrite ?markers_sent_round, ?markers_sent_call in *.

Lemma poll_loop_rounds own action marker script :
  rounds (poll_loop own action marker script) <= List.length script.
Proof.
  revert marker. induction script as [|events rest IH]; intros marker.
  - apply Nat.le_refl.
  - poll_step; cbn [List.length]; [lia|].
    specialize (IH (marker_after marker events)). unfold rounds in IH. lia.
Qed.

(** After [k] rounds the marker stands at the end of all that was fetched
    in them. *)
Lemma poll_loop_history own action marker script k :
  k <= rounds (poll_loop own action marker script) ->
  nth_error (marker_history (poll_loop own action marker script)) k =
  Some (marker_after marker (List.concat (firstn k script))).
Proof.
  revert marker k. induction script as [|events rest IH]; intros marker k Hk.
  - cbn in Hk. assert (k = 0) as -> by lia. reflexivity.
  - poll_step; cbn [List.length] in Hk.
    + destruct k as [|[|k]]; [reflexivity| |lia].
      rewrite firstn_cons. cbn. rewrite app_nil_r. reflexivity.
    + destruct k as [|k]; [reflexivity|].
      rewrite firstn_cons. cbn [nth_error List.concat app].
      specialize (IH (marker_after marker events) k).
      unfold rounds, marker_history in IH. rewrite IH by lia.
      f_equal. unfold marker_after at 1 3. rewrite py_last_app.
      destruct (py_last (List.concat (firstn k rest))); reflexivity.
Qed.

Lemma poll_loop_last_marker own action marker script :
  let r := poll_loop own action marker script in
  last_marker r =
  marker_after marker (List.concat (firstn (rounds r) script)).
Proof.
  intros r.
  pose proof (poll_loop_history own action marker script (k := rounds r)
                (Nat.le_refl _)) as H.
  fold r in H. unfold marker_history, rounds in H.
  rewrite nth_error_app2, Nat.sub_diag in H by apply Nat.le_refl.
  injection H as H. exact H.
Qed.

Lemma poll_loop_success_fetched own action marker script :
  returned (poll_loop own action marker script) = Some true ->
  List.concat (firstn (rounds (poll_loop own action marker script)) script)
  <> [].
Proof.
  revert marker. induction script as [|events rest IH]; intros marker.
  - discriminate.
  - poll_step; cbn [List.length]; rewrite firstn_cons; cbn [List.concat].
    + intros _ Hnil. apply app_eq_nil in Hnil. destruct Hnil as [-> _].
      discriminate.
    + intros H Hnil. apply app_eq_nil in Hnil. destruct Hnil as [_ Hnil].
      exact (IH _ H Hnil).
Qed.

Example wait_for_stack_ready_create_markers :
  marker_history (wait_for_stack_ready create_client "overcloud" None "CREATE")
  = [None; Some "e2"; Some "e2"; Some "e3"; Some "e4"].
Proof. reflexivity. Qed.

(** C5. After every round that fetched a non-empty batch the marker is the
    ID of the last event of that batch, whatever the events are (after an
    empty batch it is unchanged); so after [k] rounds it stands at the end
    of all the events fetched so far, a point that only moves forward; and
    when the poller returns success the marker is the ID of the last event
    it fetched. *)
Theorem wait_for_stack_ready_marker_advances :
  forall (client : OrchestrationClient) (name : string)
         (marker : option string) (action : string) (stack : Stack),
    get_stack client name = Some stack ->
    let script := events_script client in
    let r := wait_for_stack_ready client name marker action in
    let h := marker_history r in
    List.length h = S (rounds r) /\
    rounds r <= List.length script /\
    (forall k events,
        k < rounds r -> nth_error script k = Some events ->
        nth_error h (S k) = match py_last events with
                            | Some e => Some (event_id e)
                            | None => nth_error h k
                            end) /\
    (forall k,
        k <= rounds r ->
        nth_error h k =
        Some (marker_after marker (List.concat (firstn k script)))) /\
    (forall j k,
        j <= k ->
        List.length (List.concat (firstn j script)) <=
        List.length (List.concat (firstn k script))) /\
    (returned r = Some true ->
     exists e,
       py_last (List.concat (firstn (rounds r) script)) = Some e /\
       last_marker r = event_id e).
Proof.
  intros client name marker action stack Hstack script r h.
  assert (Hr : r = poll_loop (stack_name stack) action marker script).
  { unfold r, wait_for_stack_ready. rewrite Hstack. reflexivity. }
  assert (Hhist : forall k, k <= rounds r ->
            nth_error h k =
            Some (marker_after marker (List.concat (firstn k script)))).
  { intros k Hk. unfold h. rewrite Hr in *. apply poll_loop_history, Hk. }
  repeat split.
  - unfold h, marker_history, rounds. rewrite length_app. simpl. lia.
  - rewrite Hr. apply poll_loop_rounds.
  - intros k events Hk Hnth.
    rewrite (Hhist (S k)) by lia. rewrite (Hhist k) by lia.
    rewrite (firstn_snoc_nth _ _ Hnth), concat_app. cbn [List.concat].
    rewrite app_nil_r, marker_after_app.
    destruct (py_last events); reflexivity.
  - exact Hhist.
  - intros j k. apply fetched_length_mono.
  - intros Hsucc. rewrite Hr in *.
    pose proof (poll_loop_success_fetched _ _ _ _ Hsucc) as Hne.
    destruct (py_last_nonempty Hne) as [e He].
    exists e. split; [exact He|].
    rewrite poll_loop_last_marker. unfold marker_after. rewrite He.
    reflexivity.
Qed.

Lemma wait_for_stack_ready_marker_advances_witness :
  exists e,
    py_last (List.concat (firstn 4 create_script)) = Some e /\
    last_marker (wait_for_stack_ready create_client "overcloud" None "CREATE")
    = event_id e.
Proof.
  exact (proj2 (proj2 (proj2 (proj2 (proj2
           (wait_for_stack_ready_marker_advances
              create_client "overcloud" None "CREATE" (stack := overcloud)
              eq_refl))))) eq_refl).
Defined.

(** ** wait_for_provision_state *)

Example wait_for_provision_state_slow :
  wait_for_provision_state slow_client "n1" "manageable" None None =
  (true, [ NodeGet "n1"; Sleep 1; NodeGet "n1"; Sleep 1;
           NodeGet "n1"; Sleep 1; NodeGet "n1" ]).
Proof. reflexivity. Qed.

Example wait_for_provision_state_budget :
  wait_for_provision_state slow_client "n1" "manageable" (Some 2%Z) (Some 7%Z)
  = (false, [ NodeGet "n1"; Sleep 7; NodeGet "n1"; Sleep 7 ]).
Proof. reflexivity. Qed.

Example wait_for_provision_state_vanished :
  wait_for_provision_state vanishing_client "n1" "manageable" None None =
  (true, [ NodeGet "n1"; Sleep 1; NodeGet "n1"; Sleep 1; NodeGet "n1" ]).
Proof. reflexivity. Qed.

Lemma attempts_failed node_uuid sleep n t :
  attempts (failed_attempts node_uuid sleep n ++ t) = n + attempts t.
Proof.
  unfold attempts. induction n as [|n IH]; simpl; [reflexivity|].
  rewrite IH. reflexivity.
Qed.

Lemma provision_loop_converges client node_uuid state sleep :
  forall remaining attempt k,
    k < remaining ->
    converged client node_uuid state (attempt + k) ->
    (forall j, j < k -> ~ converged client node_uuid state (attempt + j)) ->
    provision_loop client node_uuid state sleep remaining attempt =
    (true, failed_attempts node_uuid sleep k ++ [NodeGet node_uuid]).
Proof.
  induction remaining as [|remaining IH]; intros attempt k Hk Hconv Hnot;
    [lia|].
  destruct k as [|k].
  - rewrite Nat.add_0_r in Hconv. unfold converged in Hconv. simpl.
    destruct (node_get_script client attempt node_uuid) as [node|];
      [|reflexivity].
    rewrite Hconv, String.eqb_refl. reflexivity.
  - pose proof (Hnot 0 (Nat.lt_0_succ k)) as H0.
    rewrite Nat.add_0_r in H0. unfold converged in H0. simpl.
    destruct (node_get_script client attempt node_uuid) as [node|];
      [|elim H0; exact I].
    destruct (String.eqb_spec (provision_state node) state) as [E|_];
      [contradiction|].
    rewrite (IH (S attempt) k); [reflexivity|lia| |].
    + rewrite Nat.add_succ_comm. exact Hconv.
    + intros j Hj. rewrite Nat.add_succ_comm. apply Hnot. lia.
Qed.

Lemma provision_loop_exhausts client node_uuid state sleep :
  forall remaining attempt,
    (forall j, j < remaining ->
       ~ converged client node_uuid state (attempt + j)) ->
    provision_loop client node_uuid state sleep remaining attempt =
    (false, failed_attempts node_uuid sleep remaining).
Proof.
  induction remaining as [|remaining IH]; intros attempt Hnot;
    [reflexivity|].
  pose proof (Hnot 0 (Nat.lt_0_succ remaining)) as H0.
  rewrite Nat.add_0_r in H0. unfold converged in H0. simpl.
  destruct (node_get_script client attempt node_uuid) as [node|];
    [|elim H0; exact I].
  destruct (String.eqb_spec (provision_state node) state) as [E|_];
    [contradiction|].
  rewrite (IH (S attempt)); [reflexivity|].
  intros j Hj. rewrite Nat.add_succ_comm. apply Hnot. lia.
Qed.

(** C4. With a budget of [loops] attempts (10 when left out) and [sleep]
    seconds between them (1 when left out): if on some attempt within the
    budget the node is gone or is in the target state, the poller returns
    [True] on the first such attempt, having slept once after each earlier
    one; if there is no such attempt it returns [False], a value and not
    an exception, after exactly [loops] attempts, each followed by one
    sleep. *)
Theorem wait_for_provision_state_budgeted :
  forall (client : BaremetalClient) (node_uuid state : string)
         (loops sleep : option Z),
    let n := Z.to_nat (getattr loops 10%Z) in
    let s := getattr sleep 1%Z in
    let r := wait_for_provision_state client node_uuid state loops sleep in
    (forall k,
        k < n ->
        converged client node_uuid state k ->
        (forall j, j < k -> ~ converged client node_uuid state j) ->
        r = (true, failed_attempts node_uuid s k ++ [NodeGet node_uuid]) /\
        attempts (snd r) = S k) /\
    ((forall k, k < n -> ~ converged client node_uuid state k) ->
     r = (false, failed_attempts node_uuid s n) /\
     attempts (snd r) = n).
Proof.
  intros client node_uuid state loops sleep n s r. split.
  - intros k Hk Hconv Hnot.
    assert (Hr : r = (true, failed_attempts node_uuid s k ++ [NodeGet node_uuid])).
    { apply provision_loop_converges with (k := k); auto. }
    split; [exact Hr|]. rewrite Hr. cbn [snd].
    rewrite attempts_failed. cbn. lia.
  - intros Hnot.
    assert (Hr : r = (false, failed_attempts node_uuid s n)).
    { apply provision_loop_exhausts. exact Hnot. }
    split; [exact Hr|]. rewrite Hr. cbn [snd].
    rewrite <- (app_nil_r (failed_attempts node_uuid s n)), attempts_failed.
    cbn. lia.
Qed.

Lemma wait_for_provision_state_budgeted_witness :
  (wait_for_provision_state vanishing_client "n1" "manageable" None None =
   (true, failed_attempts "n1" 1 2 ++ [NodeGet "n1"]) /\
   attempts (snd (wait_for_provision_state vanishing_client "n1" "manageable"
                    None None)) = 3) /\
  (wait_for_provision_state slow_client "n1" "manageable" (Some 3%Z) None =
   (false, failed_attempts "n1" 1 3) /\
   attempts (snd (wait_for_provision_state slow_client "n1" "manageable"
                    (Some 3%Z) None)) = 3).
Proof.
  split.
  - refine (proj1 (wait_for_provision_state_budgeted
              vanishing_client "n1" "manageable" None None) 2 _ _ _).
    + vm_compute. lia.
    + exact I.
    + intros [|[|j]] Hj; [discriminate|discriminate|lia].
  - refine (proj2 (wait_for_provision_state_budgeted
              slow_client "n1" "manageable" (Some 3%Z) None) _).
    intros [|[|[|k]]] Hk; [discriminate|discriminate|discriminate|].
    vm_compute in Hk. lia.
Defined.

(** ** wait_for_node_introspection *)

Example wait_for_node_introspection_abc :
  wait_for_node_introspection abc_inspector ["a"; "b"; "c"] (Some 3%Z) None =
  {| gen_trace := [ GetStatus "a"; Yield "a" done; GetStatus "c"; Sleep 10;
                    GetStatus "b"; Yield "b" done; Sleep 10;
                    GetStatus "c"; Sleep 10;
                    LogError "Introspection didn't finish for nodes c" ];
     gen_raised := None;
     outstanding := ["c"] |}.
Proof. reflexivity. Qed.

Example wait_for_node_introspection_all_done :
  wait_for_node_introspection prompt_inspector ["a"] None None =
  {| gen_trace := [ GetStatus "a"; Yield "a" done ];
     gen_raised := Some StopIteration;
     outstanding := [] |}.
Proof. reflexivity. Qed.

Lemma py_remove_length x l : List.length (py_remove x l) <= List.length l.
Proof.
  induction l as [|y l IH]; simpl; [lia|].
  destruct (String.eqb y x); simpl; lia.
Qed.

(** The list iterator always runs to its end: fuel beyond the number of
    positions left changes nothing, and the length of the list covers
    them. *)
Lemma scan_nodes_fuel get_status :
  forall fuel fuel' node_uuids i,
    List.length node_uuids - i <= fuel ->
    List.length node_uuids - i <= fuel' ->
    scan_nodes fuel get_status node_uuids i =
    scan_nodes fuel' get_status node_uuids i.
Proof.
  induction fuel as [|fuel IH]; intros fuel' l i Hf Hf'.
  - assert (Hnone : nth_error l i = None) by (apply nth_error_None; lia).
    destruct fuel'; simpl; [reflexivity|]. rewrite Hnone. reflexivity.
  - destruct fuel' as [|fuel'].
    + assert (Hnone : nth_error l i = None) by (apply nth_error_None; lia).
      simpl. rewrite Hnone. reflexivity.
    + simpl. destruct (nth_error l i) as [x|] eqn:Hnth; [|reflexivity].
      assert (Hi : i < List.length l)
        by (apply nth_error_Some; congruence).
      pose proof (py_remove_length x l) as Hrm.
      destruct (finished (get_status x)).
      * rewrite (IH fuel' (py_remove x l) (S i)) by lia. reflexivity.
      * rewrite (IH fuel' l (S i)) by lia. reflexivity.
Qed.

(** When the iterator stops it is at or past the end of the list. *)
Lemma scan_nodes_complete get_status :
  forall fuel node_uuids i,
    List.length node_uuids - i <= fuel ->
    scan_nodes (S fuel) get_status node_uuids i =
    scan_nodes fuel get_status node_uuids i.
Proof. intros. apply scan_nodes_fuel; lia. Qed.

Lemma gen_raised_cases client sleep :
  forall remaining node_uuids round,
    let r := introspection_loop client node_uuids sleep remaining round in
    (gen_raised r = Some StopIteration /\ outstanding r = []) \/
    (gen_raised r = None /\
     (outstanding r <> [] ->
      In (LogError ("Introspection didn't finish for nodes "
                    ++ String.concat "," (outstanding r))%string)
         (gen_trace r))).
Proof.
  induction remaining as [|remaining IH]; intros l round; simpl.
  - right. split; [reflexivity|].
    destruct l; [congruence|]. intros _. left. reflexivity.
  - destruct (scan_nodes (List.length l) (get_status_script client round) l 0)
      as [l' t].
    destruct l' as [|x l']; simpl.
    + left. auto.
    + destruct (IH (x :: l') (S round)) as [[H1 H2]|[H1 H2]].
      * left. auto.
      * right. split; [exact H1|]. intros Hne.
        apply in_or_app. right. right. exact (H2 Hne).
Qed.

(** A single node that never finishes uses up the budget, produces
    nothing and is reported in the error log. *)
Lemma introspection_loop_never client sleep c :
  (forall round, finished (get_status_script client round c) = false) ->
  forall remaining round,
    let r := introspection_loop client [c] sleep remaining round in
    yields (gen_trace r) = [] /\ gen_raised r = None /\ outstanding r = [c].
Proof.
  intros Hc. induction remaining as [|remaining IH]; intros round; simpl.
  - auto.
  - rewrite Hc. simpl.
    destruct (IH (S round)) as (H1 & H2 & H3). auto.
Qed.

Lemma permutation3 {A : Type} (a b c : A) (l : list A) :
  Permutation [a; b; c] l ->
  l = [a; b; c] \/ l = [a; c; b] \/ l = [b; a; c] \/
  l = [b; c; a] \/ l = [c; a; b] \/ l = [c; b; a].
Proof.
  intros H.
  destruct (Permutation_vs_cons_inv (Permutation_sym H))
    as (l1 & l2 & ->).
  apply Permutation_cons_app_inv in H.
  apply Permutation_length_2_inv in H.
  destruct l1 as [|x [|y [|z l1]]]; simpl in H |- *;
    destruct H as [H|H]; inversion H; subst; auto 10.
Qed.

(** C2. Three nodes, in any order: [a] reports finished on the first
    round, [b] on the second and not on the first, [c] on none.  With a
    budget of at least two rounds the generator produces [a] with its
    first-round status, then [b] with its second-round status, and
    nothing else; it ends by falling off its body with [c] outstanding and
    reported in the error log, and the consumer sees no exception.  On
    any input the generator ends without an exception for the consumer,
    whether it stops because the outstanding list emptied (the
    [StopIteration] raised in the body) or because the budget ran out. *)
Theorem wait_for_node_introspection_a_then_b :
  forall (client : InspectorClient) (node_uuids : list string)
         (loops sleep : option Z),
    let r := wait_for_node_introspection client node_uuids loops sleep in
    (consumer_error r = None /\
     (gen_raised r = Some StopIteration -> outstanding r = []) /\
     (outstanding r <> [] ->
      gen_raised r = None /\
      In (LogError ("Introspection didn't finish for nodes "
                    ++ String.concat "," (outstanding r))%string)
         (gen_trace r))) /\
    (forall a b c : string,
        NoDup [a; b; c] ->
        Permutation [a; b; c] node_uuids ->
        finished (get_status_script client 0 a) = true ->
        finished (get_status_script client 0 b) = false ->
        finished (get_status_script client 1 b) = true ->
        (forall round, finished (get_status_script client round c) = false) ->
        (2 <= getattr loops 220)%Z ->
        yields (gen_trace r) = [ (a, get_status_script client 0 a);
                                 (b, get_status_script client 1 b) ] /\
        gen_raised r = None /\
        consumer_error r = None /\
        outstanding r = [c] /\
        In (LogError ("Introspection didn't finish for nodes " ++ c)%string)
           (gen_trace r)).
Proof.
  intros client node_uuids loops sleep r. subst r.
  unfold wait_for_node_introspection, consumer_error. split.
  - destruct (gen_raised_cases client (getattr sleep 10%Z)
                (Z.to_nat (getattr loops 220%Z)) node_uuids 0)
      as [[H1 H2]|[H1 H2]]; rewrite H1.
    + split; [reflexivity|]. split; [intros _; exact H2|].
      intros Hne. contradiction.
    + split; [reflexivity|]. split; [discriminate|].
      intros Hne. split; [reflexivity|exact (H2 Hne)].
  - intros a b c Hnd Hperm Ha Hb0 Hb1 Hc Hloops.
    assert (Hab : a <> b /\ a <> c /\ b <> c).
    { inversion Hnd as [|? ? Hna Hnd']; subst.
      inversion Hnd' as [|? ? Hnb _]; subst. simpl in Hna, Hnb.
      repeat split; intros ->; tauto. }
    destruct Hab as (Hab & Hac & Hbc).
    assert (Eab : String.eqb a b = false) by (apply String.eqb_neq; auto).
    assert (Eac : String.eqb a c = false) by (apply String.eqb_neq; auto).
    assert (Ebc : String.eqb b c = false) by (apply String.eqb_neq; auto).
    assert (Eba : String.eqb b a = false) by (apply String.eqb_neq; auto).
    assert (Eca : String.eqb c a = false) by (apply String.eqb_neq; auto).
    assert (Ecb : String.eqb c b = false) by (apply String.eqb_neq; auto).
    destruct (Z.to_nat (getattr loops 220%Z)) as [|[|n]] eqn:Hn; [lia|lia|].
    pose proof (introspection_loop_never client (getattr sleep 10%Z) c Hc n 2)
      as Hrest.
    cbv zeta in Hrest. destruct Hrest as (Hy & Hr & Ho).
    pose proof (gen_raised_cases client (getattr sleep 10%Z) n [c] 2) as Hlog.
    cbv zeta in Hlog. rewrite Hr, Ho in Hlog.
    destruct Hlog as [[Hlog _]|[_ Hlog]]; [discriminate|].
    specialize (Hlog ltac:(discriminate)).
    change (String.concat "," [c]) with c in Hlog.
    destruct (permutation3 Hperm) as [->|[->|[->|[->|[->| ->]]]]];
      repeat (progress (simpl;
                rewrite ?Ha, ?Hb0, ?Hb1, ?Hc, ?String.eqb_refl,
                  ?Eab, ?Eac, ?Ebc, ?Eba, ?Eca, ?Ecb));
      unfold yields in *; simpl; rewrite ?Hy, ?Hr, ?Ho;
      repeat split; auto 10.
Qed.

Lemma wait_for_node_introspection_a_then_b_witness :
  let r := wait_for_node_introspection abc_inspector ["c"; "a"; "b"]
             (Some 2%Z) None in
  yields (gen_trace r) = [("a", done); ("b", done)] /\
  gen_raised r = None /\
  consumer_error r = None /\
  outstanding r = ["c"] /\
  In (LogError "Introspection didn't finish for nodes c") (gen_trace r).
Proof.
  refine (proj2 (wait_for_node_introspection_a_then_b
            abc_inspector ["c"; "a"; "b"] (Some 2%Z) None)
          "a" "b" "c" _ _ eq_refl eq_refl eq_refl (fun _ => eq_refl) _).
  - repeat constructor; simpl; intuition discriminate.
  - apply Permutation_sym. exact (Permutation_cons_append ["a"; "b"] "c").
  - simpl. lia.
Defined.

(** C3, at the input where the code departs from it: two outstanding
    nodes that both report finished on the first round.  The first round
    queries and yields ["a"] only: removing ["a"] moves ["b"] under the
    position the list iterator has already passed, so ["b"] is not queried
    in that round.  With a budget of one round ["b"] is never yielded and
    is logged as not finished; with a larger budget it is yielded one
    round, and one sleep, late. *)
Theorem wait_for_node_introspection_skips_after_removal :
  finished (get_status_script prompt_inspector 0 "a") = true /\
  finished (get_status_script prompt_inspector 0 "b") = true /\
  first_round prompt_inspector ["a"; "b"] = [GetStatus "a"; Yield "a" done] /\
  wait_for_node_introspection prompt_inspector ["a"; "b"] (Some 1%Z) None =
  {| gen_trace := [ GetStatus "a"; Yield "a" done; Sleep 10;
                    LogError "Introspection didn't finish for nodes b" ];
     gen_raised := None;
     outstanding := ["b"] |} /\
  wait_for_node_introspection prompt_inspector ["a"; "b"] None None =
  {| gen_trace := [ GetStatus "a"; Yield "a" done; Sleep 10;
                    GetStatus "b"; Yield "b" done ];
     gen_raised := Some StopIteration;
     outstanding := [] |}.
Proof. repeat split; reflexivity. Qed.

(** ** check_nodes_count *)

Example check_nodes_count_six :
  check_nodes_count decimal_int five_usable None
    [("ControllerCount", 3%Z); ("ComputeCount", 3%Z)] scale_defaults =
  Raise (DeploymentError "Not enough nodes - available: 5, requested: 6").
Proof. reflexivity. Qed.

Example check_nodes_count_five :
  check_nodes_count decimal_int five_usable None
    [("ControllerCount", 3%Z); ("ComputeCount", 2%Z)] scale_defaults = Ok true.
Proof. reflexivity. Qed.

Example check_nodes_count_scale_up :
  requested_count decimal_int (Some deployed) [("ComputeCount", 3%Z)]
    scale_defaults = Ok 4%Z.
Proof. reflexivity. Qed.

Example check_nodes_count_incomplete :
  check_nodes_count decimal_int five_usable (Some incomplete)
    [("CephStorageCount", 1%Z)] scale_defaults =
  Raise (ValueError
           "Parameter 'CephStorageCount' was not found in existing stack").
Proof. reflexivity. Qed.

Lemma node_list_associated client :
  node_list client (Some true) None = filter is_associated (inventory client).
Proof.
  unfold node_list. apply filter_ext. intros node.
  destruct (is_associated node); reflexivity.
Qed.

Lemma node_list_free client :
  node_list client (Some false) (Some false) =
  filter (fun node => negb (is_associated node) && negb (maintenance node))
         (inventory client).
Proof.
  unfold node_list. apply filter_ext. intros node.
  destruct (is_associated node), (maintenance node); reflexivity.
Qed.

Lemma check_nodes_count_unfold py_int client stack parameters defaults :
  check_nodes_count py_int client stack parameters defaults =
  count <- requested_count py_int stack parameters defaults ;;
  if (count >? usable_nodes (inventory client))%Z then
    Raise (DeploymentError
             (not_enough_nodes (usable_nodes (inventory client)) count))
  else Ok true.
Proof.
  unfold check_nodes_count, usable_nodes.
  rewrite node_list_associated, node_list_free. reflexivity.
Qed.

(** C6. The inventory available is the number of associated nodes plus
    the number of nodes neither associated nor in maintenance.  Once the
    requested count is computed, the check raises the deployment error,
    built from the available and the requested count, exactly when the
    requested count exceeds the available one, and returns [True]
    otherwise.  With 2 associated and 3 free nodes a request for 6 raises
    with available 5 and requested 6, and a request for 5 passes. *)
Theorem check_nodes_count_admission :
  forall (py_int : string -> result Z) (client : BaremetalClient)
         (stack : option Stack) (parameters defaults : dict Z)
         (requested : Z),
    requested_count py_int stack parameters defaults = Ok requested ->
    let nodes := inventory client in
    let free node := negb (is_associated node) && negb (maintenance node) in
    let available :=
      (Z.of_nat (List.length (filter is_associated nodes)) +
       Z.of_nat (List.length (filter free nodes)))%Z in
    let r := check_nodes_count py_int client stack parameters defaults in
    ((requested > available)%Z ->
     r = Raise (DeploymentError (not_enough_nodes available requested))) /\
    ((requested <= available)%Z -> r = Ok true) /\
    ((exists e, r = Raise e) <-> (requested > available)%Z) /\
    (List.length (filter is_associated nodes) = 2 ->
     List.length (filter free nodes) = 3 ->
     (requested = 6%Z ->
      r = Raise (DeploymentError
                   "Not enough nodes - available: 5, requested: 6")) /\
     (requested = 5%Z -> r = Ok true)).
Proof.
  intros py_int client stack parameters defaults requested Hreq
         nodes free available r.
  assert (Hr : r = if (requested >? available)%Z
                   then Raise (DeploymentError
                                 (not_enough_nodes available requested))
                   else Ok true).
  { unfold r. rewrite check_nodes_count_unfold, Hreq. reflexivity. }
  assert (Hgt : (requested > available)%Z ->
                r = Raise (DeploymentError
                             (not_enough_nodes available requested))).
  { intros H. rewrite Hr.
    destruct (Z.gtb_spec requested available); [reflexivity|lia]. }
  assert (Hle : (requested <= available)%Z -> r = Ok true).
  { intros H. rewrite Hr.
    destruct (Z.gtb_spec requested available); [lia|reflexivity]. }
  split; [exact Hgt|]. split; [exact Hle|]. split.
  - split.
    + intros [e He]. destruct (Z_gt_le_dec requested available) as [H|H];
        [exact H|]. rewrite (Hle H) in He. discriminate.
    + intros H. eexists. exact (Hgt H).
  - intros H2 H3.
    assert (Ha : available = 5%Z) by (unfold available; rewrite H2, H3; reflexivity).
    split; intros ->.
    + rewrite Hgt by lia. rewrite Ha. reflexivity.
    + apply Hle. lia.
Qed.

Lemma check_nodes_count_admission_witness :
  check_nodes_count decimal_int five_usable None
    [("ControllerCount", 3%Z); ("ComputeCount", 3%Z)] scale_defaults =
  Raise (DeploymentError "Not enough nodes - available: 5, requested: 6").
Proof.
  refine (proj1 (proj2 (proj2 (proj2 (check_nodes_count_admission
            decimal_int five_usable None
            [("ControllerCount", 3%Z); ("ComputeCount", 3%Z)] scale_defaults
            (requested := 6%Z) eq_refl))) eq_refl eq_refl) eq_refl).
Defined.

Section RequestedCount.

Variable py_int : string -> result Z.

Local Abbreviation on_record := (on_record py_int).

Lemma count_from_stack_sum stack parameters :
  forall params count,
    (forall param, In param params -> on_record stack param) ->
    count_from_stack py_int stack parameters params count =
    Ok (count +
        sum (map (fun param =>
                    getattr (dict_get parameters param)
                            (recorded_count py_int stack param))
                 params))%Z.
Proof.
  induction params as [|param rest IH]; intros count Hrec; simpl.
  - f_equal. lia.
  - destruct (Hrec param (or_introl eq_refl))
      as (recorded & current & Hget & Hint).
    unfold recorded_count at 1. rewrite Hget, Hint. simpl.
    rewrite IH by (intros; apply Hrec; right; assumption).
    f_equal. lia.
Qed.

Lemma count_from_stack_absent stack parameters :
  forall before param after count,
    (forall p, In p before -> on_record stack p) ->
    dict_get (stack_parameters stack) param = None ->
    count_from_stack py_int stack parameters (before ++ param :: after) count
    = Raise (ValueError (not_found_in_stack param)).
Proof.
  induction before as [|p before IH]; intros param after count Hrec Habs;
    simpl.
  - rewrite Habs. reflexivity.
  - destruct (Hrec p (or_introl eq_refl))
      as (recorded & current & Hget & Hint).
    rewrite Hget, Hint. simpl. apply IH; [|exact Habs].
    intros; apply Hrec; right; assumption.
Qed.

Lemma count_from_stack_fails stack parameters :
  forall params count param,
    In param params ->
    dict_get (stack_parameters stack) param = None ->
    exists e, count_from_stack py_int stack parameters params count = Raise e.
Proof.
  induction params as [|p rest IH]; intros count param Hin Habs;
    [contradiction|]. simpl.
  destruct (dict_get (stack_parameters stack) p) as [recorded|] eqn:Hget;
    [|eexists; reflexivity].
  destruct (py_int recorded) as [current|e]; simpl; [|eexists; reflexivity].
  destruct Hin as [->|Hin]; [congruence|]. eapply IH; eassumption.
Qed.

Lemma count_from_defaults_sum parameters :
  forall defaults count,
    count_from_defaults parameters defaults count =
    (count +
     sum (map (fun entry => getattr (dict_get parameters (fst entry))
                                    (snd entry))
              defaults))%Z.
Proof.
  induction defaults as [|[param default] rest IH]; intros count; simpl.
  - lia.
  - rewrite IH. lia.
Qed.

End RequestedCount.

(** C7, where it fails: the deployed stack has 1 controller, 1 compute
    node and no storage node on record, and the request overrides
    [ComputeCount] with 5.  The code requests 1 + 5 + 0 = 6 nodes and
    refuses the 5 usable ones; counting from the record alone gives 2,
    which would pass. *)
Lemma check_nodes_count_override_beats_record :
  requested_count decimal_int (Some deployed) [("ComputeCount", 5%Z)]
    scale_defaults = Ok 6%Z /\
  requested_count_by_record decimal_int (Some deployed)
    [("ComputeCount", 5%Z)] scale_defaults = Ok 2%Z /\
  requested_count decimal_int (Some deployed) [("ComputeCount", 5%Z)]
    scale_defaults <>
  requested_count_by_record decimal_int (Some deployed)
    [("ComputeCount", 5%Z)] scale_defaults /\
  check_nodes_count decimal_int five_usable (Some deployed)
    [("ComputeCount", 5%Z)] scale_defaults =
  Raise (DeploymentError "Not enough nodes - available: 5, requested: 6").
Proof. repeat split; try reflexivity. discriminate. Qed.

(** C7, amended.  With a stack, the count requested for each parameter of
    the defaults is the override when the request has one and the value on
    the stack's record otherwise, provided the stack has every such
    parameter on record; a parameter of the defaults absent from the
    stack's parameters makes the check fail, with the [ValueError] naming
    the first absent one when those before it are on record, whether or
    not the request overrides it.  Without a stack, the count is the
    override falling back to the default. *)
Theorem requested_count_sources :
  forall (py_int : string -> result Z) (parameters defaults : dict Z),
    let on_record := on_record py_int in
    (forall stack,
        (forall param, In param (dict_keys defaults) ->
                       on_record stack param) ->
        requested_count py_int (Some stack) parameters defaults =
        Ok (sum (map (fun param =>
                        getattr (dict_get parameters param)
                                (recorded_count py_int stack param))
                     (dict_keys defaults)))) /\
    (forall stack param,
        In param (dict_keys defaults) ->
        dict_get (stack_parameters stack) param = None ->
        (exists e,
            requested_count py_int (Some stack) parameters defaults = Raise e)
        /\
        forall before after,
          dict_keys defaults = before ++ param :: after ->
          (forall p, In p before -> on_record stack p) ->
          requested_count py_int (Some stack) parameters defaults =
          Raise (ValueError (not_found_in_stack param))) /\
    requested_count py_int None parameters defaults =
    Ok (sum (map (fun entry => getattr (dict_get parameters (fst entry))
                                       (snd entry))
                 defaults)).
Proof.
  intros py_int parameters defaults on_record. split; [|split].
  - intros stack Hrec. unfold requested_count.
    rewrite count_from_stack_sum by exact Hrec. reflexivity.
  - intros stack param Hin Habs. split.
    + apply count_from_stack_fails with (param := param); assumption.
    + intros before after Hkeys Hrec. unfold requested_count.
      rewrite Hkeys. apply count_from_stack_absent; assumption.
  - unfold requested_count. rewrite count_from_defaults_sum. reflexivity.
Qed.

Lemma requested_count_sources_witness :
  requested_count decimal_int (Some deployed) [("ComputeCount", 5%Z)]
    scale_defaults = Ok 6%Z /\
  requested_count decimal_int (Some incomplete) [("CephStorageCount", 1%Z)]
    scale_defaults =
  Raise (ValueError
           "Parameter 'CephStorageCount' was not found in existing stack").
Proof.
  split.
  - refine (proj1 (requested_count_sources decimal_int
              [("ComputeCount", 5%Z)] scale_defaults) deployed _).
    intros param [<-|[<-|[<-|[]]]]; eexists; eexists; split; reflexivity.
  - refine (proj2 (proj1 (proj2 (requested_count_sources decimal_int
              [("CephStorageCount", 1%Z)] scale_defaults))
              incomplete "CephStorageCount" _ eq_refl)
            ["ControllerCount"; "ComputeCount"] [] eq_refl _).
    + simpl. auto.
    + intros p [<-|[<-|[]]]; eexists; eexists; split; reflexivity.
Defined.

(** ** file_checksum *)

Lemma hex_digit_lower (b : byte) :
  is_lower_hex (hex_digit (Byte.to_N b / 16)) = true /\
  is_lower_hex (hex_digit (Byte.to_N b mod 16)) = true.
Proof. destruct b; split; reflexivity. Qed.

Lemma hexlify_lower (l : list byte) :
  Forall (fun c => is_lower_hex c = true) (list_ascii_of_string (hexlify l)).
Proof.
  induction l as [|b l IH]; simpl; [constructor|].
  destruct (hex_digit_lower b) as [H1 H2].
  constructor; [exact H1|]. constructor; [exact H2|exact IH].
Qed.

Lemma hexlify_length (l : list byte) :
  String.length (hexlify l) = 2 * List.length l.
Proof. induction l as [|b l IH]; simpl; [reflexivity|]. rewrite IH. lia. Qed.

Lemma concat_repeat_length {A : Type} (l : list A) (n : nat) :
  List.length (List.concat (repeat l n)) = n * List.length l.
Proof.
  induction n as [|n IH]; simpl; [reflexivity|].
  rewrite length_app, IH. reflexivity.
Qed.

Section ChecksumProofs.

Variable Hash : Type.
Variable md5 : Hash.
Variable update : Hash -> list byte -> Hash.
Variable digest : Hash -> list byte.

(** The contract of hash objects: feeding nothing changes nothing, and
    feeding two pieces in turn is feeding their concatenation. *)
Hypothesis update_nil : forall h, update h [] = h.
Hypothesis update_app :
  forall h a b, update (update h a) b = update h (a ++ b).

(** Reading in chunks of any positive size feeds the hash object the
    whole of the unread content. *)
Lemma read_loop_whole (size : nat) (checksum : Hash) (unread : list byte) :
  0 < size -> read_loop update size checksum unread = update checksum unread.
Proof.
  intros Hsize. funelim (read_loop update size checksum unread).
  - assert (Hlen : List.length (firstn size unread) = 0)
      by (rewrite e; reflexivity).
    rewrite length_firstn in Hlen.
    assert (unread = []) as -> by (destruct unread; [reflexivity|simpl in Hlen; lia]).
    symmetry. apply update_nil.
  - rewrite H by assumption.
    rewrite update_app, <- Hread, firstn_skipn. reflexivity.
Qed.

End ChecksumProofs.

Example read_loop_chunks :
  read_loop (fun h fragment => h ++ [fragment]) 2 []
            [x61; x62; x63; x61; x62]%byte =
  [[x61; x62]; [x63; x61]; [x62]]%byte.
Proof. reflexivity. Qed.

Example file_checksum_directory :
  file_checksum [] (@app byte) toy_digest (one_file "image" abc) "images" =
  Raise (ValueError "The given file images is not a regular file").
Proof. reflexivity. Qed.

Example file_checksum_abc :
  file_checksum [] (@app byte) toy_digest (one_file "image" abc) "image" =
  Ok "0326".
Proof. reflexivity. Qed.

(** C9. For a hash object that keeps the contract of [hashlib] (feeding
    pieces in turn is feeding their concatenation, and feeding nothing
    changes nothing), the checksum of a regular file read in chunks of
    64KiB is the digest of its whole content fed in one piece, whatever
    the length of the content; the result is the rendering of the digest
    in lowercase hexadecimal digits, two a byte. *)
Theorem file_checksum_whole_file :
  forall (Hash : Type) (md5 : Hash) (update : Hash -> list byte -> Hash)
         (digest : Hash -> list byte),
    (forall h, update h [] = h) ->
    (forall h a b, update (update h a) b = update h (a ++ b)) ->
    forall (filesystem : string -> Path) (filepath : string)
           (content : list byte),
      filesystem filepath = RegularFile content ->
      file_checksum md5 update digest filesystem filepath =
      Ok (whole_file_checksum md5 update digest content) /\
      Forall (fun c => is_lower_hex c = true)
             (list_ascii_of_string
                (whole_file_checksum md5 update digest content)) /\
      String.length (whole_file_checksum md5 update digest content) =
      2 * List.length (digest (update md5 content)).
Proof.
  intros Hash md5 update digest Hnil Happ filesystem filepath content Hfile.
  unfold file_checksum, whole_file_checksum, hexdigest. rewrite Hfile.
  rewrite (read_loop_whole update Hnil Happ) by lia.
  split; [reflexivity|]. split; [apply hexlify_lower|apply hexlify_length].
Qed.

Lemma file_checksum_whole_file_witness :
  Z.to_nat 65536 < List.length abc_repeated /\
  file_checksum [] (@app byte) toy_digest (one_file "image" abc_repeated)
    "image" =
  Ok (whole_file_checksum [] (@app byte) toy_digest abc_repeated).
Proof.
  split.
  - unfold abc_repeated. rewrite concat_repeat_length. simpl List.length. lia.
  - refine (proj1 (file_checksum_whole_file
              (Hash := list byte) [] (@app byte) toy_digest
              (fun h => app_nil_r h)
              (fun h a b => eq_sym (app_assoc h a b))
              (one_file "image" abc_repeated) "image" eq_refl)).
Defined.

(** ** Dictionaries *)

Lemma dict_get_set_eq {V : Type} (d : dict V) k v :
  dict_get (dict_set d k v) k = Some v.
Proof.
  induction d as [|[k' v'] d IH]; simpl.
  - rewrite String.eqb_refl. reflexivity.
  - destruct (String.eqb k' k) eqn:E; simpl; rewrite E; [reflexivity|exact IH].
Qed.

Lemma dict_get_set_neq {V : Type} (d : dict V) k v k' :
  k <> k' -> dict_get (dict_set d k v) k' = dict_get d k'.
Proof.
  intros Hne. induction d as [|[k0 v0] d IH]; simpl.
  - apply String.eqb_neq in Hne. rewrite Hne. reflexivity.
  - destruct (String.eqb_spec k0 k) as [->|Hk]; simpl.
    + apply String.eqb_neq in Hne. rewrite Hne. reflexivity.
    + rewrite IH. reflexivity.
Qed.

Lemma dict_set_new {V : Type} (d : dict V) k v :
  ~ In k (dict_keys d) -> dict_set d k v = d ++ [(k, v)].
Proof.
  induction d as [|[k' v'] d IH]; simpl; intros Hnot; [reflexivity|].
  destruct (String.eqb_spec k' k) as [->|_]; [tauto|].
  rewrite IH by tauto. reflexivity.
Qed.

Lemma dict_keys_set_old {V : Type} (d : dict V) k v :
  In k (dict_keys d) -> dict_keys (dict_set d k v) = dict_keys d.
Proof.
  induction d as [|[k' v'] d IH]; simpl; intros Hin; [contradiction|].
  destruct (String.eqb_spec k' k) as [->|Hne]; simpl; [reflexivity|].
  rewrite IH; [reflexivity|]. destruct Hin; [contradiction|assumption].
Qed.

Lemma dict_keys_set {V : Type} (d : dict V) k v k' :
  In k' (dict_keys (dict_set d k v)) <-> k' = k \/ In k' (dict_keys d).
Proof.
  destruct (in_dec string_dec k (dict_keys d)) as [Hin|Hnot].
  - rewrite dict_keys_set_old by assumption. split; [auto|].
    intros [->|H]; assumption.
  - rewrite dict_set_new by assumption. unfold dict_keys.
    rewrite map_app, in_app_iff. simpl. split.
    + intros [H|[H|[]]]; auto.
    + intros [->|H]; auto.
Qed.

Lemma dict_set_NoDup {V : Type} (d : dict V) k v :
  NoDup (dict_keys d) -> NoDup (dict_keys (dict_set d k v)).
Proof.
  intros Hnd. destruct (in_dec string_dec k (dict_keys d)) as [Hin|Hnot].
  - rewrite dict_keys_set_old by assumption. exact Hnd.
  - rewrite dict_set_new by assumption. unfold dict_keys in *.
    rewrite map_app. simpl.
    apply NoDup_app; [exact Hnd|repeat constructor; auto|].
    intros x Hx [<-|[]]. contradiction.
Qed.

Lemma dict_set_In {V : Type} (d : dict V) k v k' v' :
  In (k', v') (dict_set d k v) -> (k', v') = (k, v) \/ In (k', v') d.
Proof.
  induction d as [|[k0 v0] d IH]; simpl.
  - intros [H|[]]. left. symmetry. exact H.
  - destruct (String.eqb_spec k0 k) as [->|Hne]; simpl.
    + intros [H|H]; [left; symmetry; exact H|right; right; exact H].
    + intros [H|H]; [right; left; exact H|].
      destruct (IH H); auto.
Qed.

Lemma dict_get_In {V : Type} (d : dict V) k v :
  dict_get d k = Some v -> In (k, v) d.
Proof.
  induction d as [|[k' v'] d IH]; simpl; [discriminate|].
  destruct (String.eqb_spec k' k) as [->|Hne].
  - intros H. injection H as ->. left. reflexivity.
  - intros H. right. exact (IH H).
Qed.

Lemma dict_get_key {V : Type} (d : dict V) k :
  In k (dict_keys d) <-> dict_get d k <> None.
Proof.
  induction d as [|[k' v'] d IH]; simpl; [tauto|].
  destruct (String.eqb_spec k' k) as [->|Hne].
  - split; [discriminate|auto].
  - rewrite <- IH. split; [intros [H|H]; [contradiction|exact H]|auto].
Qed.

(** ** generate_overcloud_passwords *)

Lemma truthy_spec (value : option string) :
  truthy value = true <-> exists s, value = Some s /\ s <> EmptyString.
Proof.
  destruct value as [[|c s]|]; simpl; split; try discriminate.
  - intros (s & H & Hne). injection H as <-. congruence.
  - intros _. eexists. split; [reflexivity|discriminate].
  - reflexivity.
  - intros (s & H & _). discriminate.
Qed.

Lemma truthy_false (value : option string) :
  truthy value = false <-> value = None \/ value = Some EmptyString.
Proof.
  destruct value as [[|c s]|]; simpl; split; auto; try discriminate.
  intros [H|H]; discriminate.
Qed.

Section FillPasswords.

Variable Rng : Type.
Variable generate_password : Rng -> nat -> string * Rng.

Local Abbreviation fill := (fill_passwords generate_password).

(** A value that is there and not empty is never replaced. *)
Lemma fill_passwords_keeps names :
  forall passwords rng name value,
    dict_get passwords name = Some value ->
    value <> EmptyString ->
    dict_get (fst (fill names passwords rng)) name = Some value.
Proof.
  induction names as [|n names IH]; intros passwords rng name value Hget Hne;
    simpl; [exact Hget|].
  destruct (truthy (dict_get passwords n)) eqn:Ht; [apply IH; assumption|].
  destruct (generate_password rng _MIN_PASSWORD_SIZE) as [password rng'].
  apply IH; [|exact Hne].
  destruct (string_dec n name) as [->|Hn].
  - rewrite Hget in Ht. apply truthy_false in Ht.
    destruct Ht as [Ht|Ht]; [discriminate|]. injection Ht as ->. congruence.
  - rewrite dict_get_set_neq by exact Hn. exact Hget.
Qed.

(** Only a name of the list whose value was missing or empty changes. *)
Lemma fill_passwords_changes names :
  forall passwords rng name,
    dict_get (fst (fill names passwords rng)) name <> dict_get passwords name ->
    In name names /\
    (dict_get passwords name = None \/
     dict_get passwords name = Some EmptyString).
Proof.
  induction names as [|n names IH]; intros passwords rng name Hdiff;
    simpl in Hdiff; [congruence|].
  destruct (truthy (dict_get passwords n)) eqn:Ht.
  - destruct (IH _ _ _ Hdiff) as [Hin Hval]. split; [right; exact Hin|exact Hval].
  - destruct (generate_password rng _MIN_PASSWORD_SIZE) as [password rng'].
    destruct (string_dec n name) as [->|Hn].
    + split; [left; reflexivity|]. apply truthy_false. exact Ht.
    + rewrite <- (dict_get_set_neq passwords password Hn) in Hdiff.
      destruct (IH _ _ _ Hdiff) as [Hin Hval].
      rewrite dict_get_set_neq in Hval by exact Hn.
      split; [right; exact Hin|exact Hval].
Qed.

(** Nothing is generated when every name has a value. *)
Lemma fill_passwords_complete names :
  forall passwords rng,
    (forall name, In name names -> truthy (dict_get passwords name) = true) ->
    fill names passwords rng = (passwords, rng).
Proof.
  induction names as [|n names IH]; intros passwords rng Hall; simpl;
    [reflexivity|].
  rewrite (Hall n) by (left; reflexivity).
  apply IH. intros name Hin. apply Hall. right. exact Hin.
Qed.

(** Every name of the list has a value afterwards. *)
Lemma fill_passwords_present names :
  forall passwords rng name,
    In name names \/ In name (dict_keys passwords) ->
    In name (dict_keys (fst (fill names passwords rng))).
Proof.
  induction names as [|n names IH]; intros passwords rng name Hin; simpl.
  - destruct Hin as [[]|Hin]. exact Hin.
  - destruct (truthy (dict_get passwords n)) eqn:Ht.
    + apply IH. destruct Hin as [[<-|Hin]|Hin]; auto.
      right. apply dict_get_key. apply truthy_spec in Ht.
      destruct Ht as (s & -> & _). discriminate.
    + destruct (generate_password rng _MIN_PASSWORD_SIZE) as [password rng'].
      apply IH. destruct Hin as [[<-|Hin]|Hin]; auto.
      * right. apply dict_keys_set. left. reflexivity.
      * right. apply dict_keys_set. right. exact Hin.
Qed.

(** The keys afterwards are those before and names of the list. *)
Lemma fill_passwords_keys names :
  forall passwords rng name,
    In name (dict_keys (fst (fill names passwords rng))) ->
    In name names \/ In name (dict_keys passwords).
Proof.
  induction names as [|n names IH]; intros passwords rng name Hin;
    simpl in Hin; [right; exact Hin|].
  destruct (truthy (dict_get passwords n)).
  - destruct (IH _ _ _ Hin); [left; right; assumption|right; assumption].
  - destruct (generate_password rng _MIN_PASSWORD_SIZE) as [password rng'].
    destruct (IH _ _ _ Hin) as [H|H]; [left; right; assumption|].
    apply dict_keys_set in H. destruct H as [->|H];
      [left; left; reflexivity|right; assumption].
Qed.

Lemma fill_passwords_NoDup names :
  forall passwords rng,
    NoDup (dict_keys passwords) ->
    NoDup (dict_keys (fst (fill names passwords rng))).
Proof.
  induction names as [|n names IH]; intros passwords rng Hnd; simpl;
    [exact Hnd|].
  destruct (truthy (dict_get passwords n)); [apply IH; exact Hnd|].
  destruct (generate_password rng _MIN_PASSWORD_SIZE) as [password rng'].
  apply IH. apply dict_set_NoDup. exact Hnd.
Qed.

End FillPasswords.

(** *** Lines and fields *)

Lemma has_char_app p (a b : string) :
  has_char p (a ++ b)%string = has_char p a || has_char p b.
Proof.
  induction a as [|c a IH]; simpl; [reflexivity|].
  rewrite IH. apply orb_assoc.
Qed.

Lemma is_line_break_false c :
  is_line_break c = false -> Ascii.eqb c LF = false /\ Ascii.eqb c CR = false.
Proof. unfold is_line_break. apply orb_false_elim. Qed.

(** A line without an end of line in it, written with its newline, is
    read back as that line. *)
Lemma splitlines_line (line rest : string) :
  has_char is_line_break line = false ->
  splitlines (line ++ newline ++ rest)%string = line :: splitlines rest.
Proof.
  induction line as [|c line IH]; intros Hclean.
  - reflexivity.
  - simpl in Hclean. apply orb_false_elim in Hclean. destruct Hclean as [Hc Hl].
    apply is_line_break_false in Hc. destruct Hc as [Hlf Hcr].
    cbn [append splitlines]. rewrite Hlf, Hcr, (IH Hl). reflexivity.
Qed.

Lemma split_nonempty sep s : split sep s <> [].
Proof.
  destruct s as [|c s]; simpl; [discriminate|].
  destruct (Ascii.eqb c sep); [discriminate|].
  destruct (split sep s); discriminate.
Qed.

Lemma split_whole sep s :
  has_char (fun c => Ascii.eqb c sep) s = false -> split sep s = [s].
Proof.
  induction s as [|c s IH]; simpl; intros H; [reflexivity|].
  apply orb_false_elim in H. destruct H as [Hc Hs].
  rewrite Hc, (IH Hs). reflexivity.
Qed.

Lemma split_field sep (field rest : string) :
  has_char (fun c => Ascii.eqb c sep) field = false ->
  split sep (field ++ String sep rest)%string = field :: split sep rest.
Proof.
  induction field as [|c field IH]; simpl; intros H.
  - rewrite Ascii.eqb_refl. reflexivity.
  - apply orb_false_elim in H. destruct H as [Hc Hf].
    rewrite Hc, (IH Hf). reflexivity.
Qed.

Lemma split_length sep s :
  List.length (split sep s) = S (count_char sep s).
Proof.
  induction s as [|c s IH]; simpl; [reflexivity|].
  destruct (Ascii.eqb c sep); simpl; [rewrite IH; reflexivity|].
  destruct (split sep s) as [|part parts] eqn:E; simpl in *; [discriminate|].
  exact IH.
Qed.

Lemma count_char_app sep (a b : string) :
  count_char sep (a ++ b)%string = count_char sep a + count_char sep b.
Proof.
  induction a as [|c a IH]; simpl; [reflexivity|].
  destruct (Ascii.eqb c sep); simpl; rewrite IH; reflexivity.
Qed.

Lemma count_char_has sep s :
  has_char (fun c => Ascii.eqb c sep) s = true -> 1 <= count_char sep s.
Proof.
  induction s as [|c s IH]; simpl; [discriminate|].
  destruct (Ascii.eqb c sep); simpl; [lia|exact IH].
Qed.

(** The parts of a split hold no separator, and no character of a kind
    the string holds none of. *)
Lemma split_parts_no_sep sep s :
  Forall (fun part => has_char (fun c => Ascii.eqb c sep) part = false)
         (split sep s).
Proof.
  induction s as [|c s IH]; simpl.
  - constructor; [reflexivity|constructor].
  - destruct (Ascii.eqb c sep) eqn:E.
    + constructor; [reflexivity|exact IH].
    + destruct (split sep s) as [|part parts]; simpl.
      * constructor; [simpl; rewrite E; reflexivity|constructor].
      * inversion IH as [|? ? Hp Hps]; subst.
        constructor; [simpl; rewrite E, Hp; reflexivity|exact Hps].
Qed.

Lemma split_parts_without p sep s :
  has_char p s = false ->
  Forall (fun part => has_char p part = false) (split sep s).
Proof.
  induction s as [|c s IH]; simpl; intros H.
  - constructor; [reflexivity|constructor].
  - apply orb_false_elim in H. destruct H as [Hc Hs]. specialize (IH Hs).
    destruct (Ascii.eqb c sep).
    + constructor; [reflexivity|exact IH].
    + destruct (split sep s) as [|part parts]; simpl.
      * constructor; [simpl; rewrite Hc; reflexivity|constructor].
      * inversion IH as [|? ? Hp Hps]; subst.
        constructor; [simpl; rewrite Hc, Hp; reflexivity|exact Hps].
Qed.

(** No line that [splitlines] gives holds an end of line. *)
Lemma splitlines_no_break_bounded n :
  forall s, String.length s <= n ->
            Forall (fun line => has_char is_line_break line = false)
                   (splitlines s).
Proof.
  induction n as [|n IH]; intros s Hlen.
  - destruct s; [constructor|simpl in Hlen; lia].
  - destruct s as [|c rest]; [constructor|]. simpl in Hlen.
    assert (Hrest : Forall (fun line => has_char is_line_break line = false)
                           (splitlines rest)) by (apply IH; lia).
    cbn [splitlines].
    destruct (Ascii.eqb c LF) eqn:Hlf; [constructor; [reflexivity|exact Hrest]|].
    destruct (Ascii.eqb c CR) eqn:Hcr.
    + constructor; [reflexivity|].
      destruct rest as [|c' rest']; [constructor|].
      destruct (Ascii.eqb c' LF); [|exact Hrest].
      apply IH. simpl in Hlen. lia.
    + assert (Hc : is_line_break c = false)
        by (unfold is_line_break; rewrite Hlf, Hcr; reflexivity).
      destruct (splitlines rest) as [|line lines].
      * constructor; [simpl; rewrite Hc; reflexivity|constructor].
      * inversion Hrest as [|? ? Hl Hls]; subst.
        constructor; [simpl; rewrite Hc, Hl; reflexivity|exact Hls].
Qed.

Lemma splitlines_no_break s :
  Forall (fun line => has_char is_line_break line = false) (splitlines s).
Proof. apply splitlines_no_break_bounded with (n := String.length s). lia. Qed.

(** *** Reading and writing the file *)

Lemma append_assoc (a b c : string) :
  ((a ++ b) ++ c = a ++ b ++ c)%string.
Proof. induction a as [|x a IH]; simpl; [reflexivity|]. rewrite IH. reflexivity. Qed.

Lemma splitlines_write (passwords : dict string) :
  (forall name value, In (name, value) passwords ->
     has_char is_line_break name = false /\
     has_char is_line_break value = false) ->
  splitlines (write_passwords passwords) = map line_of passwords.
Proof.
  induction passwords as [|[name value] rest IH]; intros Hclean;
    [reflexivity|].
  destruct (Hclean name value (or_introl eq_refl)) as [Hn Hv].
  cbn [write_passwords map].
  replace (name ++ "=" ++ value ++ newline ++ write_passwords rest)%string
    with ((name ++ "=" ++ value) ++ newline ++ write_passwords rest)%string.
  - rewrite splitlines_line.
    + rewrite IH; [reflexivity|]. intros n v Hin. apply Hclean. right. exact Hin.
    + rewrite has_char_app. simpl. rewrite Hn, Hv. reflexivity.
  - rewrite !append_assoc. reflexivity.
Qed.

Lemma split_line_of (item : string * string) :
  has_char is_equals (fst item) = false ->
  has_char is_equals (snd item) = false ->
  split "="%char (line_of item) = [fst item; snd item].
Proof.
  intros Hn Hv. unfold line_of. cbn [append].
  rewrite split_field by exact Hn. rewrite split_whole by exact Hv.
  reflexivity.
Qed.

Lemma dict_of_pairs_items (items : dict string) :
  forall i acc,
    NoDup (dict_keys acc ++ dict_keys items) ->
    dict_of_pairs (map (fun item => [fst item; snd item]) items) i acc =
    Ok (acc ++ items).
Proof.
  induction items as [|[k v] items IH]; intros i acc Hnd; simpl.
  - rewrite app_nil_r. reflexivity.
  - simpl in Hnd.
    assert (Hk : ~ In k (dict_keys acc)).
    { apply NoDup_remove_2 in Hnd. intros H. apply Hnd.
      apply in_or_app. left. exact H. }
    rewrite dict_set_new by exact Hk. rewrite IH.
    + rewrite <- app_assoc. reflexivity.
    + unfold dict_keys in *. rewrite map_app, <- app_assoc. exact Hnd.
Qed.

Lemma dict_of_pairs_bad elements :
  forall i acc,
    (exists element, In element elements /\ List.length element <> 2) ->
    exists msg, dict_of_pairs elements i acc = Raise (ValueError msg).
Proof.
  induction elements as [|element rest IH]; intros i acc (bad & Hin & Hlen);
    [contradiction|]. simpl.
  destruct element as [|k [|v [|x element]]]; try (eexists; reflexivity).
  apply IH. destruct Hin as [<-|Hin]; [simpl in Hlen; congruence|].
  exists bad. auto.
Qed.

(** What [dict] builds holds only pairs it was given or started with, and
    no key twice. *)
Lemma dict_of_pairs_entries elements :
  forall i acc d,
    dict_of_pairs elements i acc = Ok d ->
    (NoDup (dict_keys acc) -> NoDup (dict_keys d)) /\
    (forall k v, In (k, v) d -> In (k, v) acc \/ In [k; v] elements).
Proof.
  induction elements as [|element rest IH]; intros i acc d Hd; simpl in Hd.
  - injection Hd as <-. auto.
  - destruct element as [|k0 [|v0 [|x element]]]; try discriminate.
    destruct (IH _ _ _ Hd) as [Hnd Hin]. split.
    + intros H. apply Hnd. apply dict_set_NoDup. exact H.
    + intros k v Hkv. destruct (Hin k v Hkv) as [H|H].
      * apply dict_set_In in H. destruct H as [H|H]; [|left; exact H].
        injection H as -> ->. right. left. reflexivity.
      * right. right. exact H.
Qed.

(** Writing a dictionary of clean names and values and reading the file
    gives the dictionary back. *)
Lemma read_write_passwords (passwords : dict string) :
  NoDup (dict_keys passwords) ->
  (forall name value, In (name, value) passwords -> clean name /\ clean value) ->
  read_passwords (write_passwords passwords) = Ok passwords.
Proof.
  intros Hnd Hclean. unfold read_passwords.
  rewrite splitlines_write.
  - rewrite map_map.
    rewrite (map_ext_in _ (fun item => [fst item; snd item])).
    + apply (dict_of_pairs_items passwords 0 []). exact Hnd.
    + intros [name value] Hin.
      destruct (Hclean name value Hin) as [[Hn _] [Hv _]].
      apply split_line_of; assumption.
  - intros name value Hin.
    destruct (Hclean name value Hin) as [[_ Hn] [_ Hv]]. auto.
Qed.

(** Names and values read from a file are clean. *)
Lemma read_passwords_clean (content : string) (d : dict string) :
  read_passwords content = Ok d ->
  NoDup (dict_keys d) /\
  forall name value, In (name, value) d -> clean name /\ clean value.
Proof.
  unfold read_passwords. intros Hd.
  destruct (dict_of_pairs_entries _ _ _ Hd) as [Hnd Hin]. split.
  - apply Hnd. constructor.
  - intros name value Hkv. destruct (Hin name value Hkv) as [[]|H].
    apply in_map_iff in H. destruct H as (line & Hsplit & Hline).
    pose proof (split_parts_no_sep "="%char line) as Hsep.
    pose proof (splitlines_no_break content) as Hbreaks.
    rewrite Forall_forall in Hbreaks. specialize (Hbreaks line Hline).
    pose proof (split_parts_without is_line_break "="%char line Hbreaks)
      as Hbrk.
    rewrite Hsplit in Hsep, Hbrk.
    inversion Hsep as [|? ? Hs1 Hs']; subst.
    inversion Hs' as [|? ? Hs2 _]; subst.
    inversion Hbrk as [|? ? Hb1 Hb']; subst.
    inversion Hb' as [|? ? Hb2 _]; subst.
    unfold clean. auto.
Qed.

Example generate_overcloud_passwords_first_run :
  generate_overcloud_passwords letters None 0 =
  Ok (sample_passwords, sample_file, 13).
Proof. vm_compute. reflexivity. Qed.

Example generate_overcloud_passwords_fills_gaps :
  dict_get sample_passwords "OVERCLOUD_ADMIN_TOKEN" =
  Some "bbbbbbbbbbbbbbbbbbbbbbbbb" /\
  match generate_overcloud_passwords letters
          (Some ("OVERCLOUD_ADMIN_TOKEN=secret" ++ newline
                 ++ "OVERCLOUD_NOVA_PASSWORD=" ++ newline
                 ++ "EXTRA=" ++ newline)%string) 0 with
  | Ok (passwords, _, rng) =>
      dict_get passwords "OVERCLOUD_ADMIN_TOKEN" = Some "secret" /\
      dict_get passwords "OVERCLOUD_NOVA_PASSWORD" =
      Some "jjjjjjjjjjjjjjjjjjjjjjjjj" /\
      dict_get passwords "EXTRA" = Some EmptyString /\
      rng = 12
  | Raise _ => False
  end.
Proof. vm_compute. repeat split; reflexivity. Qed.

Example generate_overcloud_passwords_bad_line :
  generate_overcloud_passwords letters (Some "no separator here") 0 =
  Raise (ValueError
           "dictionary update sequence element #0 has length 1; 2 is required").
Proof. reflexivity. Qed.

Lemma password_names_clean name : In name _PASSWORD_NAMES -> clean name.
Proof.
  intros Hin. simpl in Hin.
  repeat (destruct Hin as [<-|Hin]; [split; reflexivity|]).
  contradiction.
Qed.

Lemma password_names_NoDup : NoDup _PASSWORD_NAMES.
Proof.
  unfold _PASSWORD_NAMES.
  repeat (constructor; [simpl; intuition discriminate|]). constructor.
Qed.

Lemma option_string_dec (x y : option string) : {x = y} + {x <> y}.
Proof. decide equality. apply string_dec. Qed.

Section DrawnPasswords.

Variable Rng : Type.
Variable generate_password : Rng -> nat -> string * Rng.

Local Abbreviation fill := (fill_passwords generate_password).
Local Abbreviation draw := (draw_passwords generate_password).

(** A name outside the list keeps its value through the loop. *)
Lemma fill_passwords_outside names passwords rng name :
  ~ In name names ->
  dict_get (fst (fill names passwords rng)) name = dict_get passwords name.
Proof.
  intros Hnot.
  destruct (option_string_dec
              (dict_get (fst (fill names passwords rng)) name)
              (dict_get passwords name)) as [H|H]; [exact H|].
  apply fill_passwords_changes in H. destruct H as [Hin _]. contradiction.
Qed.

(** The loop draws one password for each name it has to fill, in the
    order of the list, and leaves each under its name. *)
Lemma fill_passwords_draws names :
  NoDup names ->
  forall passwords rng,
    snd (fill names passwords rng) =
    snd (draw rng (names_to_fill names passwords)) /\
    forall name value,
      In (name, value) (fst (draw rng (names_to_fill names passwords))) ->
      dict_get (fst (fill names passwords rng)) name = Some value.
Proof.
  induction 1 as [|n names Hnot Hnd IH]; intros passwords rng.
  - split; [reflexivity|]. intros name value [].
  - cbn [fill_passwords names_to_fill filter].
    fold (names_to_fill names passwords).
    destruct (truthy (dict_get passwords n)) eqn:Ht; cbn [negb];
      [apply IH|].
    cbn [draw_passwords].
    destruct (generate_password rng _MIN_PASSWORD_SIZE) as [password rng1].
    assert (Hsame : names_to_fill names (dict_set passwords n password) =
                    names_to_fill names passwords).
    { unfold names_to_fill. apply filter_ext_in. intros m Hm.
      rewrite dict_get_set_neq; [reflexivity|]. intros ->. contradiction. }
    destruct (IH (dict_set passwords n password) rng1) as [Hrng Hval].
    rewrite Hsame in Hrng, Hval.
    destruct (draw rng1 (names_to_fill names passwords)) as [drawn rng2].
    cbn [fst snd] in *. split; [exact Hrng|].
    intros name value [Hhead|Hin]; [|apply Hval; exact Hin].
    injection Hhead as <- <-.
    rewrite fill_passwords_outside by exact Hnot.
    apply dict_get_set_eq.
Qed.

(** What is drawn: the names given, each with a password that the source
    generated at the canonical size. *)
Lemma draw_passwords_generated names :
  forall rng,
    map fst (fst (draw rng names)) = names /\
    forall name value,
      In (name, value) (fst (draw rng names)) ->
      exists r, value = fst (generate_password r _MIN_PASSWORD_SIZE).
Proof.
  induction names as [|n names IH]; intros rng; cbn [draw_passwords].
  - split; [reflexivity|]. intros name value [].
  - destruct (generate_password rng _MIN_PASSWORD_SIZE) as [password rng1]
      eqn:Hgen.
    destruct (IH rng1) as [Hnames Hval].
    destruct (draw rng1 names) as [drawn rng2]. cbn [fst map] in *.
    split; [rewrite Hnames; reflexivity|].
    intros name value [Hhead|Hin]; [|exact (Hval name value Hin)].
    injection Hhead as <- <-. exists rng. rewrite Hgen. reflexivity.
Qed.

End DrawnPasswords.



(** C10, where it fails: a value that holds ['='] and an end of line.  The
    file written is [A=x], newline, [B=y], newline; reading it does not
    fail, it returns two items, neither with the value written.  And an
    empty value is no obstacle to the read: the file written for [blank]
    is read back as [blank]. *)
Lemma read_passwords_tangled_value :
  (exists value, In ("A", value) tangled /\ has_char is_equals value = true) /\
  read_passwords (write_passwords tangled) = Ok [("A", "x"); ("B", "y")] /\
  ~ (exists e, read_passwords (write_passwords tangled) = Raise e) /\
  read_passwords (write_passwords blank) = Ok blank.
Proof.
  split; [|split; [|split]].
  - eexists. split; [left; reflexivity|reflexivity].
  - reflexivity.
  - intros [e He]. discriminate He.
  - reflexivity.
Qed.

Lemma dict_get_In_iff {V : Type} (d : dict V) k v :
  NoDup (dict_keys d) -> (dict_get d k = Some v <-> In (k, v) d).
Proof.
  intros Hnd. split; [apply dict_get_In|].
  induction d as [|[k' v'] d IH]; intros Hin; [contradiction|].
  simpl in Hnd. inversion Hnd as [|? ? Hnot Hnd']; subst. simpl.
  destruct Hin as [Heq|Hin].
  - injection Heq as -> ->. rewrite String.eqb_refl. reflexivity.
  - destruct (String.eqb_spec k' k) as [->|Hne]; [|exact (IH Hnd' Hin)].
    elim Hnot. apply in_map_iff. exists (k, v). auto.
Qed.

(** The items of a dictionary in another order are the same mapping. *)
Lemma same_mapping_perm {V : Type} (d items : dict V) :
  NoDup (dict_keys d) -> Permutation items d ->
  NoDup (dict_keys items) /\ same_mapping items d.
Proof.
  intros Hnd Hperm.
  assert (Hnd' : NoDup (dict_keys items)).
  { apply (Permutation_NoDup (l := dict_keys d)); [|exact Hnd].
    apply Permutation_map. apply Permutation_sym. exact Hperm. }
  split; [exact Hnd'|]. intros name.
  destruct (dict_get d name) as [v|] eqn:Hd.
  - apply dict_get_In_iff; [exact Hnd'|].
    apply (Permutation_in _ (Permutation_sym Hperm)).
    apply dict_get_In. exact Hd.
  - destruct (dict_get items name) as [v|] eqn:Hi; [|reflexivity].
    apply dict_get_In in Hi. apply (Permutation_in _ Hperm) in Hi.
    apply dict_get_In_iff in Hi; [congruence|exact Hnd].
Qed.

(** C10, amended.  When every value of the dictionary a run returns is
    non-empty and holds no ['='] and no end of line (LF or CR), reading
    the file the run wrote gives that mapping back, and so does reading
    the file written with the items in any other order; a further run on
    such a file returns the same mapping and generates nothing.  A
    dictionary with an ['='] or an end of line in some value is never read
    back from a file written for it, in whatever order: the value read
    under that name is another; with an ['='] in some value the read fails
    with a [ValueError] when no name and no value holds an end of line. *)
Theorem generate_overcloud_passwords_round_trip :
  forall (Rng : Type) (generate_password : Rng -> nat -> string * Rng),
    (forall existing rng returned file rng',
        generate_overcloud_passwords generate_password existing rng =
        Ok (returned, file, rng') ->
        (forall name value,
            In (name, value) returned ->
            value <> EmptyString /\
            has_char is_equals value = false /\
            has_char is_line_break value = false) ->
        (exists read,
            read_passwords file = Ok read /\ same_mapping read returned) /\
        forall items,
          Permutation items returned ->
          (exists read,
              read_passwords (write_passwords items) = Ok read /\
              same_mapping read returned) /\
          forall rng2,
            exists returned2 file2,
              generate_overcloud_passwords generate_password
                (Some (write_passwords items)) rng2 =
              Ok (returned2, file2, rng2) /\
              same_mapping returned2 returned) /\
    (forall passwords name value,
        NoDup (dict_keys passwords) ->
        In (name, value) passwords ->
        has_char is_equals value = true \/
        has_char is_line_break value = true ->
        forall items read,
          Permutation items passwords ->
          read_passwords (write_passwords items) = Ok read ->
          dict_get read name <> dict_get passwords name) /\
    (forall passwords name value,
        In (name, value) passwords ->
        has_char is_equals value = true ->
        (forall n v, In (n, v) passwords ->
                     has_char is_line_break n = false /\
                     has_char is_line_break v = false) ->
        forall items,
          Permutation items passwords ->
          exists msg,
            read_passwords (write_passwords items) = Raise (ValueError msg)).
Proof.
  intros Rng generate_password. split; [|split].
  - intros existing rng returned file rng' Hgen Hvalues.
    unfold generate_overcloud_passwords in Hgen.
    assert (Hstored : exists stored,
               NoDup (dict_keys stored) /\
               (forall name value, In (name, value) stored -> clean name) /\
               fill_passwords generate_password _PASSWORD_NAMES stored rng =
               (returned, rng') /\
               file = write_passwords returned).
    { destruct existing as [content|].
      - destruct (read_passwords content) as [stored|e] eqn:Hread;
          [|discriminate Hgen]. cbn [bind] in Hgen.
        destruct (read_passwords_clean _ Hread) as [Hnd Hclean].
        exists stored.
        destruct (fill_passwords generate_password _PASSWORD_NAMES stored rng)
          as [p r]. injection Hgen as <- <- <-.
        split; [exact Hnd|]. split; [|split; reflexivity].
        intros name value Hin. exact (proj1 (Hclean name value Hin)).
      - cbn [bind] in Hgen. exists [].
        destruct (fill_passwords generate_password _PASSWORD_NAMES [] rng)
          as [p r]. injection Hgen as <- <- <-.
        split; [constructor|]. split; [|split; reflexivity].
        intros name value []. }
    destruct Hstored as (stored & Hnd & Hnames & Hfill & ->).
    assert (Hreturned : returned =
              fst (fill_passwords generate_password _PASSWORD_NAMES stored rng))
      by (rewrite Hfill; reflexivity).
    assert (Hnd_returned : NoDup (dict_keys returned))
      by (rewrite Hreturned; apply fill_passwords_NoDup; exact Hnd).
    assert (Hclean : forall name value,
               In (name, value) returned -> clean name /\ clean value).
    { intros name value Hin. split.
      - assert (Hkey : In name (dict_keys returned))
          by (apply in_map_iff; exists (name, value); auto).
        rewrite Hreturned in Hkey. apply fill_passwords_keys in Hkey.
        destruct Hkey as [Hkey|Hkey]; [exact (password_names_clean Hkey)|].
        apply in_map_iff in Hkey. destruct Hkey as ([n v] & <- & Hnv).
        exact (Hnames n v Hnv).
      - destruct (Hvalues name value Hin) as (_ & He & Hb). split; assumption. }
    assert (Hfull : forall name, In name _PASSWORD_NAMES ->
               truthy (dict_get returned name) = true).
    { intros name Hin. apply truthy_spec.
      assert (Hkey : In name (dict_keys returned)).
      { rewrite Hreturned. apply fill_passwords_present. left. exact Hin. }
      apply dict_get_key in Hkey.
      destruct (dict_get returned name) as [value|] eqn:Hget; [|congruence].
      exists value. split; [reflexivity|].
      exact (proj1 (Hvalues name value (dict_get_In _ _ Hget))). }
    assert (Hany : forall items,
               Permutation items returned ->
               read_passwords (write_passwords items) = Ok items /\
               same_mapping items returned).
    { intros items Hperm.
      destruct (same_mapping_perm Hnd_returned Hperm) as [Hnd_items Hsame].
      split; [|exact Hsame].
      apply read_write_passwords; [exact Hnd_items|].
      intros name value Hin. apply Hclean.
      exact (Permutation_in _ Hperm Hin). }
    split.
    + exists returned. apply Hany. apply Permutation_refl.
    + intros items Hperm. destruct (Hany items Hperm) as [Hread Hsame].
      split; [exists items; auto|].
      intros rng2. exists items, (write_passwords items).
      split; [|exact Hsame].
      unfold generate_overcloud_passwords. rewrite Hread. cbn [bind].
      rewrite fill_passwords_complete; [reflexivity|].
      intros name Hin. rewrite (Hsame name). apply Hfull. exact Hin.
  - intros passwords name value Hnd Hin Hbad items read Hperm Hread Heq.
    destruct (read_passwords_clean _ Hread) as [_ Hclean].
    assert (Hget : dict_get passwords name = Some value)
      by (apply dict_get_In_iff; assumption).
    rewrite Hget in Heq. apply dict_get_In in Heq.
    destruct (Hclean name value Heq) as [_ [He Hb]].
    destruct Hbad; congruence.
  - intros passwords name value Hin Heq Hbreaks items Hperm.
    unfold read_passwords. rewrite splitlines_write.
    + apply dict_of_pairs_bad.
      exists (split "="%char (line_of (name, value))). split.
      * apply in_map. apply (in_map line_of).
        exact (Permutation_in _ (Permutation_sym Hperm) Hin).
      * rewrite split_length. unfold line_of. cbn [fst snd].
        rewrite count_char_app. cbn [append count_char].
        rewrite Ascii.eqb_refl.
        pose proof (count_char_has "="%char value Heq). lia.
    + intros n v Hnv. apply Hbreaks. exact (Permutation_in _ Hperm Hnv).
Qed.

Lemma generate_overcloud_passwords_round_trip_witness :
  (exists read,
      read_passwords sample_file = Ok read /\
      same_mapping read sample_passwords) /\
  forall items,
    Permutation items sample_passwords ->
    (exists read,
        read_passwords (write_passwords items) = Ok read /\
        same_mapping read sample_passwords) /\
    forall rng2,
      exists returned2 file2,
        generate_overcloud_passwords letters
          (Some (write_passwords items)) rng2 =
        Ok (returned2, file2, rng2) /\
        same_mapping returned2 sample_passwords.
Proof.
  refine (proj1 (generate_overcloud_passwords_round_trip letters)
            None 0 sample_passwords sample_file 13 _ _).
  - vm_compute. reflexivity.
  - intros name value Hin. simpl in Hin.
    repeat (destruct Hin as [Hin|Hin];
            [injection Hin as <- <-; repeat split; discriminate||reflexivity|]).
    contradiction.
Defined.

(** ** all_unique *)

Lemma nodup_length_le {A : Type} (dec : forall a b : A, {a = b} + {a <> b})
    (l : list A) :
  List.length (nodup dec l) <= List.length l.
Proof.
  induction l as [|a l IH]; simpl; [lia|].
  destruct (in_dec dec a l); simpl; lia.
Qed.

Example all_unique_distinct : all_unique string_dec ["a"; "b"; "c"] = true.
Proof. reflexivity. Qed.

Example all_unique_repeated : all_unique string_dec ["a"; "b"; "a"] = false.
Proof. reflexivity. Qed.

(** X1. [all_unique] answers [True] exactly for the collections in which
    no element occurs twice. *)
Theorem all_unique_NoDup :
  forall (A : Type) (dec : forall a b : A, {a = b} + {a <> b}) (x : list A),
    all_unique dec x = true <-> NoDup x.
Proof.
  intros A dec x. unfold all_unique, py_set. rewrite Nat.eqb_eq. split.
  - induction x as [|a x IH]; simpl; [constructor|].
    pose proof (nodup_length_le dec x) as Hle.
    destruct (in_dec dec a x) as [Hin|Hnot]; simpl; intros Hlen; [lia|].
    constructor; [exact Hnot|]. apply IH. lia.
  - intros Hnd. rewrite nodup_fixed_point by exact Hnd. reflexivity.
Qed.

(** ** get_overcloud_endpoint, get_service_ips *)

Example get_overcloud_endpoint_deployed :
  get_overcloud_endpoint deployed_outputs = Some "http://192.0.2.5:5000/v2.0".
Proof. reflexivity. Qed.

Example get_service_ips_doubled :
  get_overcloud_endpoint doubled_outputs = Some "http://192.0.2.5:5000/v2.0" /\
  get_service_ips doubled_outputs =
  [("KeystoneURL", "http://192.0.2.9:5000/v2.0")].
Proof. split; reflexivity. Qed.

Lemma find_keystone_url_first outs :
  forall value,
    find_keystone_url outs = Some value <->
    exists before output after,
      outs = before ++ output :: after /\
      output_key output = "KeystoneURL" /\
      output_value output = value /\
      forall o, In o before -> output_key o <> "KeystoneURL".
Proof.
  induction outs as [|o outs IH]; intros value; simpl.
  - split; [discriminate|]. intros (before & output & after & H & _).
    destruct before; discriminate.
  - destruct (String.eqb_spec (output_key o) "KeystoneURL") as [Hk|Hk].
    + split.
      * intros H. injection H as <-. exists [], o, outs.
        split; [reflexivity|]. split; [exact Hk|]. split; [reflexivity|].
        intros ? [].
      * intros (before & output & after & Heq & Hkey & Hval & Hnot).
        destruct before as [|b before]; simpl in Heq; inversion Heq; subst.
        -- reflexivity.
        -- elim (Hnot b (or_introl eq_refl) Hk).
    + rewrite IH. split.
      * intros (before & output & after & Heq & Hkey & Hval & Hnot).
        exists (o :: before), output, after.
        split; [rewrite Heq; reflexivity|]. split; [exact Hkey|].
        split; [exact Hval|]. intros x [Hx|Hx]; [subst x; exact Hk|auto].
      * intros (before & output & after & Heq & Hkey & Hval & Hnot).
        destruct before as [|b before]; simpl in Heq; inversion Heq; subst.
        -- contradiction.
        -- exists before, output, after.
           split; [reflexivity|]. split; [exact Hkey|].
           split; [reflexivity|]. intros x Hx. apply Hnot. right. exact Hx.
Qed.

Lemma find_keystone_url_none outs :
  find_keystone_url outs = None <->
  forall o, In o outs -> output_key o <> "KeystoneURL".
Proof.
  induction outs as [|o outs IH]; simpl.
  - split; [intros _ ? []|reflexivity].
  - destruct (String.eqb_spec (output_key o) "KeystoneURL") as [Hk|Hk].
    + split; [discriminate|]. intros H. elim (H o (or_introl eq_refl) Hk).
    + rewrite IH. split.
      * intros H x [<-|Hx]; auto.
      * intros H x Hx. apply H. right. exact Hx.
Qed.

(** X2. [get_overcloud_endpoint] returns the value of the first output
    whose key is [KeystoneURL], and [None] exactly when the stack has no
    such output (or no outputs at all). *)
Theorem get_overcloud_endpoint_first :
  forall (stack : StackDict),
    let outs := getattr (outputs stack) [] in
    (forall value,
        get_overcloud_endpoint stack = Some value <->
        exists before output after,
          outs = before ++ output :: after /\
          output_key output = "KeystoneURL" /\
          output_value output = value /\
          forall o, In o before -> output_key o <> "KeystoneURL") /\
    (get_overcloud_endpoint stack = None <->
     forall o, In o outs -> output_key o <> "KeystoneURL") /\
    (outputs stack = None -> get_overcloud_endpoint stack = None).
Proof.
  intros stack outs. split; [|split].
  - intros value. apply find_keystone_url_first.
  - apply find_keystone_url_none.
  - unfold get_overcloud_endpoint. intros ->. reflexivity.
Qed.

Lemma find_app_first {A : Type} (p : A -> bool) (a b : list A) :
  find p (a ++ b) = match find p a with
                    | Some x => Some x
                    | None => find p b
                    end.
Proof.
  induction a as [|x a IH]; simpl; [reflexivity|].
  destruct (p x); [reflexivity|exact IH].
Qed.

Lemma find_none_iff {A : Type} (p : A -> bool) (l : list A) :
  find p l = None <-> forall x, In x l -> p x = false.
Proof.
  induction l as [|y l IH]; simpl.
  - split; [intros _ ? []|reflexivity].
  - destruct (p y) eqn:E.
    + split; [discriminate|]. intros H. rewrite (H y) in E by auto.
      discriminate.
    + rewrite IH. split.
      * intros H x [<-|Hx]; auto.
      * intros H x Hx. apply H. right. exact Hx.
Qed.

Lemma last_output_value_cons o outs key :
  last_output_value (o :: outs) key =
  match last_output_value outs key with
  | Some v => Some v
  | None => if String.eqb (output_key o) key then Some (output_value o)
            else None
  end.
Proof.
  unfold last_output_value. simpl rev. rewrite find_app_first.
  destruct (find _ (rev outs)); simpl; [reflexivity|].
  destruct (String.eqb (output_key o) key); reflexivity.
Qed.

Lemma collect_service_ips_lookup outs :
  forall service_ips key,
    dict_get (collect_service_ips outs service_ips) key =
    match last_output_value outs key with
    | Some v => Some v
    | None => dict_get service_ips key
    end.
Proof.
  induction outs as [|o outs IH]; intros service_ips key; simpl.
  - reflexivity.
  - rewrite IH, last_output_value_cons.
    destruct (last_output_value outs key); [reflexivity|].
    destruct (String.eqb_spec (output_key o) key) as [<-|Hne].
    + apply dict_get_set_eq.
    + apply dict_get_set_neq. exact Hne.
Qed.

Lemma collect_service_ips_NoDup outs :
  forall service_ips,
    NoDup (dict_keys service_ips) ->
    NoDup (dict_keys (collect_service_ips outs service_ips)).
Proof.
  induction outs as [|o outs IH]; intros service_ips Hnd; simpl;
    [exact Hnd|]. apply IH. apply dict_set_NoDup. exact Hnd.
Qed.

Lemma get_service_ips_lookup (stack : StackDict) (key : string) :
  dict_get (get_service_ips stack) key =
  last_output_value (getattr (outputs stack) []) key.
Proof.
  unfold get_service_ips. rewrite collect_service_ips_lookup.
  destruct (last_output_value (getattr (outputs stack) []) key); reflexivity.
Qed.

(** X3. In the dictionary of [get_service_ips] no key occurs twice, its
    keys are the keys of the outputs, and the value under a key is the
    value of the last output with that key. *)
Theorem get_service_ips_last :
  forall (stack : StackDict) (key : string),
    let outs := getattr (outputs stack) [] in
    dict_get (get_service_ips stack) key = last_output_value outs key /\
    NoDup (dict_keys (get_service_ips stack)) /\
    (In key (dict_keys (get_service_ips stack)) <->
     exists o, In o outs /\ output_key o = key).
Proof.
  intros stack key outs.
  assert (Hget : dict_get (get_service_ips stack) key =
                 last_output_value outs key)
    by apply get_service_ips_lookup.
  split; [exact Hget|]. split.
  - apply collect_service_ips_NoDup. constructor.
  - rewrite dict_get_key, Hget. unfold last_output_value.
    destruct (find _ (rev outs)) as [o|] eqn:Hfind; simpl.
    + apply find_some in Hfind. destruct Hfind as [Hin Hk].
      apply in_rev in Hin. apply String.eqb_eq in Hk.
      split; [intros _; exists o; auto|discriminate].
    + split; [congruence|]. intros (o & Hin & Hk).
      rewrite find_none_iff in Hfind. apply in_rev in Hin.
      specialize (Hfind o Hin). simpl in Hfind.
      rewrite Hk, String.eqb_refl in Hfind. discriminate.
Qed.

Lemma find_rev_unique (key : string) (outs : list Output) :
  NoDup (map output_key outs) ->
  find (fun output => String.eqb (output_key output) key) (rev outs) =
  find (fun output => String.eqb (output_key output) key) outs.
Proof.
  induction outs as [|o outs IH]; intros Hnd; [reflexivity|].
  simpl in Hnd. inversion Hnd as [|? ? Hnot Hnd']; subst.
  simpl rev. rewrite find_app_first. simpl.
  destruct (String.eqb_spec (output_key o) key) as [Hk|Hk].
  - assert (Hnone : find (fun output => String.eqb (output_key output) key)
                         (rev outs) = None).
    { apply find_none_iff. intros x Hx. apply in_rev in Hx.
      apply String.eqb_neq. intros Hxk. apply Hnot.
      rewrite Hk, <- Hxk. apply in_map. exact Hx. }
    rewrite Hnone. reflexivity.
  - rewrite (IH Hnd'). destruct (find _ outs); reflexivity.
Qed.

Lemma find_keystone_url_find outs :
  find_keystone_url outs =
  option_map output_value
    (find (fun output => String.eqb (output_key output) "KeystoneURL") outs).
Proof.
  induction outs as [|o outs IH]; simpl; [reflexivity|].
  destruct (String.eqb (output_key o) "KeystoneURL"); [reflexivity|exact IH].
Qed.

(** X4. When no two outputs of the stack share a key, the endpoint that
    [get_overcloud_endpoint] returns is the entry [KeystoneURL] of
    [get_service_ips].  (With a key given twice the former takes the first
    output and the latter the last.) *)
Theorem get_service_ips_endpoint :
  forall (stack : StackDict),
    NoDup (map output_key (getattr (outputs stack) [])) ->
    dict_get (get_service_ips stack) "KeystoneURL" =
    get_overcloud_endpoint stack.
Proof.
  intros stack Hnd.
  rewrite get_service_ips_lookup.
  unfold get_overcloud_endpoint, last_output_value.
  rewrite find_keystone_url_find, find_rev_unique by exact Hnd. reflexivity.
Qed.

Lemma get_service_ips_endpoint_witness :
  dict_get (get_service_ips deployed_outputs) "KeystoneURL" =
  get_overcloud_endpoint deployed_outputs.
Proof.
  apply get_service_ips_endpoint. simpl.
  repeat constructor; simpl; intuition discriminate.
Defined.

(** ** More on wait_for_stack_ready *)

Lemma scan_events_found own action events :
  (exists e, In e events /\
             (signals own action "_COMPLETE" e \/
              signals own action "_FAILED" e)) ->
  exists b, scan_events own action events = Some b.
Proof.
  induction events as [|x events IH]; intros (e & Hin & Hsig);
    [contradiction|]. simpl.
  destruct (check_event own action x) as [b|] eqn:E; [eauto|].
  apply IH. destruct Hin as [<-|Hin]; [|eauto].
  assert (H : exists b, check_event own action x = Some b).
  { destruct Hsig as [H|H].
    - exists true. apply check_event_signals. auto.
    - exists false. apply check_event_signals. auto. }
  destruct H as [b H]. congruence.
Qed.

Lemma scan_events_quiet own action events :
  (forall e, In e events ->
     ~ signals own action "_COMPLETE" e /\ ~ signals own action "_FAILED" e) ->
  scan_events own action events = None.
Proof.
  intros H. apply scan_events_none. intros e He.
  destruct (check_event own action e) as [b|] eqn:E; [|reflexivity].
  apply check_event_signals in E. destruct (H e He) as [Hc Hf].
  destruct E as [[_ E]|[_ E]]; contradiction.
Qed.

Lemma poll_loop_stops own action :
  forall before marker batch after b,
    (forall events, In events before -> scan_events own action events = None) ->
    scan_events own action batch = Some b ->
    poll_loop own action marker (before ++ batch :: after) =
    poll_loop own action marker (before ++ [batch]) /\
    returned (poll_loop own action marker (before ++ batch :: after)) = Some b /\
    rounds (poll_loop own action marker (before ++ batch :: after)) =
    S (List.length before) /\
    sleeps (poll_trace (poll_loop own action marker (before ++ batch :: after)))
    = repeat 5%Z (List.length before).
Proof.
  induction before as [|events before IH]; intros marker batch after b Hq Hb.
  - cbn [app]. rewrite !poll_loop_cons, Hb. auto.
  - cbn [app]. rewrite !poll_loop_cons.
    rewrite (Hq events (or_introl eq_refl)). cbv zeta.
    destruct (@IH (marker_after marker events) batch after b)
      as (H1 & H2 & H3 & H4);
      [intros; apply Hq; right; assumption|exact Hb|].
    rewrite H1. split; [reflexivity|].
    rewrite <- H1. cbn [returned poll_trace]. split; [exact H2|].
    unfold rounds in *. cbn [poll_trace]. rewrite markers_sent_round.
    cbn [List.length]. rewrite H3. split; [reflexivity|].
    cbn [sleeps flat_map app repeat]. fold (sleeps (poll_trace
      (poll_loop own action (marker_after marker events)
         (before ++ batch :: after)))).
    rewrite H4. reflexivity.
Qed.

(** X5. The poller stops at the first batch that holds an event of the
    stack with the status [<ACTION>_COMPLETE] or [<ACTION>_FAILED]: what
    the service would return after that batch plays no part, the number
    of calls of [get_events] is the position of that batch, and the poller
    has slept five seconds once for each batch before it. *)
Theorem wait_for_stack_ready_stops_at_signal :
  forall (client : OrchestrationClient) (name : string)
         (marker : option string) (action : string) (stack : Stack)
         (before : list (list Event)) (batch : list Event)
         (after : list (list Event)),
    get_stack client name = Some stack ->
    events_script client = before ++ batch :: after ->
    (forall e, In e (List.concat before) ->
       ~ signals (stack_name stack) action "_COMPLETE" e /\
       ~ signals (stack_name stack) action "_FAILED" e) ->
    (exists e, In e batch /\
               (signals (stack_name stack) action "_COMPLETE" e \/
                signals (stack_name stack) action "_FAILED" e)) ->
    let r := wait_for_stack_ready client name marker action in
    r = wait_for_stack_ready (with_script client (before ++ [batch]))
          name marker action /\
    (exists b, returned r = Some b) /\
    rounds r = S (List.length before) /\
    sleeps (poll_trace r) = repeat 5%Z (List.length before).
Proof.
  intros client name marker action stack before batch after
         Hstack Hscript Hquiet Hsignal r.
  destruct (@scan_events_found (stack_name stack) action batch Hsignal)
    as [b Hb].
  assert (Hq : forall events, In events before ->
                 scan_events (stack_name stack) action events = None).
  { intros events Hin. apply scan_events_quiet. intros e He.
    apply Hquiet. apply in_concat. exists events. auto. }
  destruct (@poll_loop_stops (stack_name stack) action before marker batch
              after b Hq Hb) as (H1 & H2 & H3 & H4).
  unfold r, wait_for_stack_ready, get_stack in *. cbn [with_script stacks_get events_script].
  rewrite Hstack, Hscript.
  split; [exact H1|]. split; [exists b; exact H2|]. split; [exact H3|exact H4].
Qed.

Lemma wait_for_stack_ready_stops_at_signal_witness :
  let r := wait_for_stack_ready longer_client "overcloud" None "CREATE" in
  r = wait_for_stack_ready
        (with_script longer_client
           ([ [ mk_event "e1" "Controller" "CREATE_COMPLETE";
                mk_event "e2" "overcloud" "CREATE_IN_PROGRESS" ];
              [];
              [ mk_event "e3" "Compute" "CREATE_FAILED" ] ]
            ++ [[ mk_event "e4" "overcloud" "CREATE_COMPLETE" ]]))
        "overcloud" None "CREATE" /\
  (exists b, returned r = Some b) /\
  rounds r = 4 /\
  sleeps (poll_trace r) = [5; 5; 5]%Z.
Proof.
  refine (@wait_for_stack_ready_stops_at_signal
            longer_client "overcloud" None "CREATE" overcloud
            [ [ mk_event "e1" "Controller" "CREATE_COMPLETE";
                mk_event "e2" "overcloud" "CREATE_IN_PROGRESS" ];
              [];
              [ mk_event "e3" "Compute" "CREATE_FAILED" ] ]
            [ mk_event "e4" "overcloud" "CREATE_COMPLETE" ]
            [[ mk_event "e5" "overcloud" "CREATE_FAILED" ]]
            eq_refl eq_refl _ _).
  - intros e [<-|[<-|[<-|[]]]]; split; intros [H1 H2]; discriminate.
  - exists (mk_event "e4" "overcloud" "CREATE_COMPLETE").
    split; [left; reflexivity|]. left. split; reflexivity.
Defined.

(** X6. What the poller returns does not depend on how the service cuts
    the event log into batches: two scripts with the same events in the
    same order give the same result. *)
Theorem wait_for_stack_ready_batching :
  forall (client : OrchestrationClient) (script : list (list Event))
         (name : string) (marker : option string) (action : string),
    List.concat script = List.concat (events_script client) ->
    returned (wait_for_stack_ready (with_script client script)
                name marker action) =
    returned (wait_for_stack_ready client name marker action).
Proof.
  intros client script name marker action Hlog.
  unfold wait_for_stack_ready, get_stack. cbn [with_script stacks_get events_script].
  destruct (stacks_get client name) as [stack|]; [|reflexivity].
  rewrite !poll_loop_returned, Hlog. reflexivity.
Qed.

Lemma wait_for_stack_ready_batching_witness :
  returned (wait_for_stack_ready
              (with_script create_client [List.concat create_script])
              "overcloud" None "CREATE") =
  returned (wait_for_stack_ready create_client "overcloud" None "CREATE").
Proof.
  apply wait_for_stack_ready_batching. reflexivity.
Defined.

(** ** More on wait_for_provision_state *)

Lemma converged_dec client node_uuid state attempt :
  {converged client node_uuid state attempt} +
  {~ converged client node_uuid state attempt}.
Proof.
  unfold converged.
  destruct (node_get_script client attempt node_uuid) as [node|];
    [apply string_dec|left; exact I].
Qed.

Lemma provision_loop_true client node_uuid state sleep :
  forall remaining attempt,
    fst (provision_loop client node_uuid state sleep remaining attempt) = true
    <-> exists k, k < remaining /\
                  converged client node_uuid state (attempt + k).
Proof.
  induction remaining as [|remaining IH]; intros attempt.
  - simpl. split; [discriminate|]. intros (k & Hk & _). lia.
  - destruct (converged_dec client node_uuid state attempt) as [Hc|Hc].
    + split.
      * intros _. exists 0. rewrite Nat.add_0_r. split; [lia|exact Hc].
      * intros _. rewrite (@provision_loop_converges client node_uuid state
                             sleep (S remaining) attempt 0);
          [reflexivity|lia|rewrite Nat.add_0_r; exact Hc|intros; lia].
    + assert (Hstep : fst (provision_loop client node_uuid state sleep
                             (S remaining) attempt) =
                      fst (provision_loop client node_uuid state sleep
                             remaining (S attempt))).
      { unfold converged in Hc. simpl.
        destruct (node_get_script client attempt node_uuid) as [node|];
          [|elim Hc; exact I].
        destruct (String.eqb_spec (provision_state node) state);
          [contradiction|].
        destruct (provision_loop client node_uuid state sleep remaining
                    (S attempt)); reflexivity. }
      rewrite Hstep, IH. split.
      * intros (k & Hk & Hconv). exists (S k). split; [lia|].
        rewrite <- Nat.add_succ_comm. exact Hconv.
      * intros (k & Hk & Hconv). destruct k as [|k].
        -- rewrite Nat.add_0_r in Hconv. contradiction.
        -- exists k. split; [lia|]. rewrite Nat.add_succ_comm. exact Hconv.
Qed.

Lemma provision_loop_attempts client node_uuid state sleep :
  forall remaining attempt,
    attempts (snd (provision_loop client node_uuid state sleep remaining
                     attempt)) <= remaining /\
    Forall (fun s => s = sleep)
           (sleeps (snd (provision_loop client node_uuid state sleep
                           remaining attempt))).
Proof.
  induction remaining as [|remaining IH]; intros attempt; simpl.
  - split; [apply Nat.le_refl|constructor].
  - destruct (node_get_script client attempt node_uuid) as [node|].
    + destruct (String.eqb (provision_state node) state).
      * split; [cbn; lia|constructor].
      * destruct (IH (S attempt)) as [Ha Hs].
        destruct (provision_loop client node_uuid state sleep remaining
                    (S attempt)) as [b t].
        cbn [snd] in *. split.
        -- unfold attempts in *. cbn. lia.
        -- cbn. constructor; [reflexivity|exact Hs].
    + split; [cbn; lia|constructor].
Qed.

(** X7. [wait_for_provision_state] returns [True] exactly when, on some
    attempt within the budget, the node is gone or in the state waited
    for.  It never asks more often than the budget allows, so with a
    budget of zero or less it returns [False] without asking at all, and
    every sleep it takes has the configured length. *)
Theorem wait_for_provision_state_complete :
  forall (client : BaremetalClient) (node_uuid state : string)
         (loops sleep : option Z),
    let n := Z.to_nat (getattr loops 10%Z) in
    let r := wait_for_provision_state client node_uuid state loops sleep in
    (fst r = true <->
     exists k, k < n /\ converged client node_uuid state k) /\
    attempts (snd r) <= n /\
    Forall (fun s => s = getattr sleep 1%Z) (sleeps (snd r)) /\
    ((getattr loops 10 <= 0)%Z -> r = (false, [])).
Proof.
  intros client node_uuid state loops sleep n r.
  unfold r, wait_for_provision_state. fold n.
  split; [apply (provision_loop_true client node_uuid state _ n 0)|].
  destruct (provision_loop_attempts client node_uuid state
              (getattr sleep 1%Z) n 0) as [Ha Hs].
  split; [exact Ha|]. split; [exact Hs|].
  intros Hle. assert (n = 0) as -> by (unfold n; lia). reflexivity.
Qed.

(** ** More on wait_for_node_introspection *)

Lemma py_remove_In x l y : In y (py_remove x l) -> In y l.
Proof.
  induction l as [|z l IH]; simpl; [auto|].
  destruct (String.eqb z x); [auto|]. intros [H|H]; auto.
Qed.

Lemma py_remove_perm x l : In x l -> Permutation (x :: py_remove x l) l.
Proof.
  induction l as [|z l IH]; intros Hin; [contradiction|]. simpl.
  destruct (String.eqb_spec z x) as [->|Hne]; [apply Permutation_refl|].
  destruct Hin as [H|H]; [contradiction|].
  apply perm_trans with (z :: x :: py_remove x l); [apply perm_swap|].
  apply perm_skip. apply IH. exact H.
Qed.

Lemma py_remove_length_in x l :
  In x l -> List.length l = S (List.length (py_remove x l)).
Proof.
  intros Hin. pose proof (Permutation_length (py_remove_perm x l Hin)) as H.
  simpl in H. symmetry. exact H.
Qed.

Lemma yields_app t1 t2 : yields (t1 ++ t2) = yields t1 ++ yields t2.
Proof. apply flat_map_app. Qed.

Lemma queried_app t1 t2 : queried (t1 ++ t2) = queried t1 ++ queried t2.
Proof. apply flat_map_app. Qed.

(** One pass over the list keeps every node: it is yielded, with a
    finished status, or it is still in the list. *)
Lemma scan_nodes_keeps get_status :
  forall fuel node_uuids i,
    let r := scan_nodes fuel get_status node_uuids i in
    Permutation (map fst (yields (snd r)) ++ fst r) node_uuids /\
    Forall (fun item => finished (snd item) = true) (yields (snd r)) /\
    (forall u, In u (queried (snd r)) -> In u node_uuids).
Proof.
  induction fuel as [|fuel IH]; intros l i; cbn [scan_nodes].
  - cbn. split; [apply Permutation_refl|]. split; [constructor|intros ? []].
  - destruct (nth_error l i) as [x|] eqn:Hnth.
    + apply nth_error_In in Hnth.
      destruct (finished (get_status x)) eqn:Hfin.
      * specialize (IH (py_remove x l) (S i)). cbv zeta in IH.
        destruct (scan_nodes fuel get_status (py_remove x l) (S i))
          as [l' t]. cbn [fst snd] in *.
        destruct IH as (Hp & Hf & Hq). split; [|split].
        -- cbn. apply perm_trans with (x :: py_remove x l);
             [apply perm_skip; exact Hp|apply py_remove_perm; exact Hnth].
        -- cbn. constructor; [exact Hfin|exact Hf].
        -- cbn. intros u [<-|Hu]; [exact Hnth|].
           apply py_remove_In with x. apply Hq. exact Hu.
      * specialize (IH l (S i)). cbv zeta in IH.
        destruct (scan_nodes fuel get_status l (S i)) as [l' t].
        cbn [fst snd] in *. destruct IH as (Hp & Hf & Hq).
        split; [exact Hp|]. split; [exact Hf|].
        cbn. intros u [<-|Hu]; [exact Hnth|apply Hq; exact Hu].
    + cbn. split; [apply Permutation_refl|].
      split; [constructor|intros ? []].
Qed.

Lemma introspection_loop_keeps client sleep :
  forall remaining node_uuids round,
    let r := introspection_loop client node_uuids sleep remaining round in
    Permutation (map fst (yields (gen_trace r)) ++ outstanding r) node_uuids /\
    Forall (fun item => finished (snd item) = true) (yields (gen_trace r)) /\
    (forall u, In u (queried (gen_trace r)) -> In u node_uuids).
Proof.
  induction remaining as [|remaining IH]; intros l round;
    cbn [introspection_loop].
  - cbn [gen_trace outstanding].
    destruct (1 <=? List.length l)%nat; cbn;
      (split; [apply Permutation_refl|]; split; [constructor|intros ? []]).
  - pose proof (scan_nodes_keeps (get_status_script client round)
                  (List.length l) l 0) as Hscan. cbv zeta in Hscan.
    destruct (scan_nodes (List.length l) (get_status_script client round) l 0)
      as [l' t]. cbn [fst snd] in Hscan. destruct Hscan as (Hp & Hf & Hq).
    destruct (List.length l' =? 0)%nat.
    + cbn [gen_trace outstanding]. auto.
    + specialize (IH l' (S round)). cbv zeta in IH.
      destruct IH as (Hp' & Hf' & Hq'). cbn [gen_trace outstanding].
      rewrite yields_app, queried_app.
      change (yields (Sleep sleep :: ?t)) with (yields t).
      change (queried (Sleep sleep :: ?t)) with (queried t).
      split; [|split].
      * rewrite map_app, <- app_assoc.
        apply perm_trans with (map fst (yields t) ++ l'); [|exact Hp].
        apply Permutation_app_head. exact Hp'.
      * apply Forall_app. auto.
      * intros u Hu. apply in_app_or in Hu. destruct Hu as [Hu|Hu]; [auto|].
        apply Hq' in Hu.
        apply (Permutation_in u Hp). apply in_or_app. right. exact Hu.
Qed.

(** X8. The introspection poller loses no node and invents none: the
    nodes it yields, followed by the nodes still outstanding when it ends,
    are the nodes it was given, each as often as it was given.  Every
    status it yields reports finished, and it queries only nodes it was
    given. *)
Theorem wait_for_node_introspection_conserves :
  forall (client : InspectorClient) (node_uuids : list string)
         (loops sleep : option Z),
    let r := wait_for_node_introspection client node_uuids loops sleep in
    Permutation (map fst (yields (gen_trace r)) ++ outstanding r) node_uuids /\
    Forall (fun item => finished (snd item) = true) (yields (gen_trace r)) /\
    (forall u, In u (queried (gen_trace r)) -> In u node_uuids).
Proof.
  intros client node_uuids loops sleep.
  apply introspection_loop_keeps.
Qed.

Lemma scan_nodes_all_finished get_status :
  forall fuel node_uuids i,
    (forall u, In u node_uuids -> finished (get_status u) = true) ->
    List.length node_uuids - i <= fuel ->
    let r := scan_nodes fuel get_status node_uuids i in
    List.length (yields (snd r)) = (List.length node_uuids - i + 1) / 2 /\
    List.length (fst r) =
    List.length node_uuids - (List.length node_uuids - i + 1) / 2.
Proof.
  induction fuel as [|fuel IH]; intros l i Hall Hfuel; cbn [scan_nodes].
  - cbn [fst snd yields flat_map List.length].
    assert (List.length l - i = 0) as -> by lia.
    change ((0 + 1) / 2) with 0. lia.
  - destruct (nth_error l i) as [x|] eqn:Hnth.
    + assert (Hlt : i < List.length l) by (apply nth_error_Some; congruence).
      apply nth_error_In in Hnth. rewrite (Hall x Hnth).
      pose proof (py_remove_length_in x l Hnth) as Hlen.
      specialize (IH (py_remove x l) (S i)). cbv zeta in IH.
      destruct (scan_nodes fuel get_status (py_remove x l) (S i)) as [l' t].
      cbn [fst snd] in *.
      destruct IH as [Hy Hl];
        [intros u Hu; apply Hall; apply py_remove_In with x; exact Hu
        |lia|].
      cbn [yields flat_map app List.length]. fold (yields t).
      rewrite Hy, Hl.
      destruct (Nat.eq_dec (List.length l - i) 1) as [Hone|Hmore].
      * assert (List.length (py_remove x l) - S i = 0) as -> by lia.
        rewrite Hone. change ((0 + 1) / 2) with 0.
        change ((1 + 1) / 2) with 1. lia.
      * assert (Hd : List.length l - i + 1 =
                     (List.length (py_remove x l) - S i + 1) + 1 * 2) by lia.
        rewrite Hd, Nat.div_add by lia.
        pose proof (Nat.Div0.div_le_upper_bound
                      (List.length (py_remove x l) - S i + 1) 2
                      (List.length (py_remove x l))) as Hub.
        assert ((List.length (py_remove x l) - S i + 1) / 2
                <= List.length (py_remove x l)) by (apply Hub; lia).
        lia.
    + apply nth_error_None in Hnth.
      assert (List.length l - i = 0) as -> by lia.
      cbn [fst snd yields flat_map List.length].
      change ((0 + 1) / 2) with 0. lia.
Qed.

(** X9. When every node given reports finished on the first round, that
    round yields every other node only: of [n] nodes, [n / 2] rounded up
    are yielded and [n / 2] rounded down are left for later rounds.  So
    with two or more nodes one round is never enough, and a budget of one
    round ends with the rest reported as not finished. *)
Theorem wait_for_node_introspection_every_other :
  forall (client : InspectorClient) (node_uuids : list string)
         (sleep : option Z),
    (forall u, In u node_uuids ->
               finished (get_status_script client 0 u) = true) ->
    let n := List.length node_uuids in
    let r := wait_for_node_introspection client node_uuids (Some 1%Z) sleep in
    List.length (yields (first_round client node_uuids)) = (n + 1) / 2 /\
    List.length (yields (gen_trace r)) = (n + 1) / 2 /\
    List.length (outstanding r) = n / 2 /\
    (2 <= n ->
     gen_raised r = None /\
     In (LogError ("Introspection didn't finish for nodes "
                   ++ String.concat "," (outstanding r))%string)
        (gen_trace r)).
Proof.
  intros client node_uuids sleep Hall n r. subst n r.
  pose proof (@scan_nodes_all_finished (get_status_script client 0)
                (List.length node_uuids) node_uuids 0 Hall) as Hscan.
  cbv zeta in Hscan. rewrite Nat.sub_0_r in Hscan.
  destruct Hscan as [Hy Hl]; [lia|].
  assert (Hhalf : List.length node_uuids - (List.length node_uuids + 1) / 2
                  = List.length node_uuids / 2).
  { pose proof (Nat.div_mod_eq (List.length node_uuids) 2).
    pose proof (Nat.div_mod_eq (List.length node_uuids + 1) 2).
    pose proof (Nat.mod_upper_bound (List.length node_uuids) 2).
    pose proof (Nat.mod_upper_bound (List.length node_uuids + 1) 2).
    lia. }
  split; [exact Hy|].
  unfold wait_for_node_introspection, first_round in *.
  change (Z.to_nat (getattr (Some 1%Z) 220%Z)) with 1.
  cbn [introspection_loop].
  destruct (scan_nodes (List.length node_uuids) (get_status_script client 0)
              node_uuids 0) as [l t]. cbn [fst snd] in *.
  destruct (List.length l =? 0)%nat eqn:Hzero.
  - apply Nat.eqb_eq in Hzero. cbn [gen_trace outstanding gen_raised].
    split; [exact Hy|]. split; [lia|].
    intros Hn.
    assert (1 <= List.length node_uuids / 2)
      by (apply Nat.div_le_lower_bound; lia). lia.
  - cbn [gen_trace outstanding gen_raised].
    rewrite yields_app. cbn [yields flat_map].
    destruct (1 <=? List.length l)%nat eqn:Hone.
    + cbn [flat_map app]. rewrite app_nil_r.
      split; [exact Hy|]. split; [lia|]. intros _. split; [reflexivity|].
      apply in_or_app. right. right. left. reflexivity.
    + apply Nat.eqb_neq in Hzero. apply Nat.leb_gt in Hone. lia.
Qed.

Lemma wait_for_node_introspection_every_other_witness :
  let r := wait_for_node_introspection prompt_inspector
             ["a"; "b"; "c"; "d"; "e"] (Some 1%Z) None in
  List.length (yields (first_round prompt_inspector ["a"; "b"; "c"; "d"; "e"]))
  = 3 /\
  List.length (yields (gen_trace r)) = 3 /\
  List.length (outstanding r) = 2 /\
  (2 <= 5 ->
   gen_raised r = None /\
   In (LogError ("Introspection didn't finish for nodes "
                 ++ String.concat "," (outstanding r))%string)
      (gen_trace r)).
Proof.
  exact (@wait_for_node_introspection_every_other prompt_inspector
           ["a"; "b"; "c"; "d"; "e"] None (fun _ _ => eq_refl)).
Defined.

(** ** More on check_nodes_count *)

Lemma usable_nodes_total (nodes : list Node) :
  usable_nodes nodes =
  (Z.of_nat (List.length nodes) -
   Z.of_nat (List.length
               (filter (fun node => negb (is_associated node)
                                    && maintenance node) nodes)))%Z.
Proof.
  unfold usable_nodes. induction nodes as [|node nodes IH]; [reflexivity|].
  cbn [filter List.length].
  destruct (is_associated node), (maintenance node); cbn [negb andb List.length];
    lia.
Qed.

(** X10. Of the inventory only the nodes that are in maintenance without
    being associated are left out of the count: an associated node counts
    whether or not it is in maintenance.  The check passes exactly when
    the requested count is at most the number of all nodes less the
    number of those. *)
Theorem check_nodes_count_maintenance :
  forall (py_int : string -> result Z) (client : BaremetalClient)
         (stack : option Stack) (parameters defaults : dict Z)
         (requested : Z),
    requested_count py_int stack parameters defaults = Ok requested ->
    let set_aside node := negb (is_associated node) && maintenance node in
    check_nodes_count py_int client stack parameters defaults = Ok true <->
    (requested <=
     Z.of_nat (List.length (inventory client)) -
     Z.of_nat (List.length (filter set_aside (inventory client))))%Z.
Proof.
  intros py_int client stack parameters defaults requested Hreq set_aside.
  rewrite check_nodes_count_unfold, Hreq. cbn [bind].
  rewrite usable_nodes_total. fold set_aside.
  destruct (Z.gtb_spec requested
              (Z.of_nat (List.length (inventory client)) -
               Z.of_nat (List.length (filter set_aside (inventory client)))))
    as [Hgt|Hle];
    split; intros Hcheck; try lia; try reflexivity; discriminate.
Qed.

Lemma check_nodes_count_maintenance_witness :
  check_nodes_count decimal_int five_usable None
    [("ControllerCount", 3%Z); ("ComputeCount", 2%Z)] scale_defaults = Ok true
  <-> (5 <= 6 - 1)%Z.
Proof.
  exact (@check_nodes_count_maintenance decimal_int five_usable None
           [("ControllerCount", 3%Z); ("ComputeCount", 2%Z)] scale_defaults
           5%Z eq_refl).
Defined.

Lemma count_from_stack_other py_int stack parameters key value :
  forall params count,
    ~ In key params ->
    count_from_stack py_int stack (dict_set parameters key value) params count
    = count_from_stack py_int stack parameters params count.
Proof.
  induction params as [|param rest IH]; intros count Hnot; simpl;
    [reflexivity|].
  destruct (dict_get (stack_parameters stack) param); [|reflexivity].
  destruct (py_int s) as [current|e]; simpl; [|reflexivity].
  rewrite dict_get_set_neq by (intros ->; apply Hnot; left; reflexivity).
  apply IH. intros H. apply Hnot. right. exact H.
Qed.

Lemma count_from_defaults_other parameters key value :
  forall defaults count,
    ~ In key (dict_keys defaults) ->
    count_from_defaults (dict_set parameters key value) defaults count =
    count_from_defaults parameters defaults count.
Proof.
  induction defaults as [|[param default] rest IH]; intros count Hnot; simpl;
    [reflexivity|].
  rewrite dict_get_set_neq by (intros ->; apply Hnot; left; reflexivity).
  apply IH. intros H. apply Hnot. right. exact H.
Qed.

(** X11. A requested parameter that has no default is not counted: adding
    it to the request, or changing it, leaves the outcome of the check as
    it was, with a stack and without one. *)
Theorem check_nodes_count_ignores_unknown :
  forall (py_int : string -> result Z) (client : BaremetalClient)
         (stack : option Stack) (parameters defaults : dict Z)
         (key : string) (value : Z),
    ~ In key (dict_keys defaults) ->
    check_nodes_count py_int client stack (dict_set parameters key value)
      defaults =
    check_nodes_count py_int client stack parameters defaults.
Proof.
  intros py_int client stack parameters defaults key value Hnot.
  unfold check_nodes_count, requested_count.
  destruct stack as [s|].
  - rewrite count_from_stack_other by exact Hnot. reflexivity.
  - rewrite count_from_defaults_other by exact Hnot. reflexivity.
Qed.

Lemma check_nodes_count_ignores_unknown_witness :
  check_nodes_count decimal_int five_usable (Some deployed)
    (dict_set [("ComputeCount", 3%Z)] "SwiftStorageCount" 40%Z)
    scale_defaults =
  check_nodes_count decimal_int five_usable (Some deployed)
    [("ComputeCount", 3%Z)] scale_defaults.
Proof.
  apply check_nodes_count_ignores_unknown.
  simpl. intuition discriminate.
Defined.

(** ** More on file_checksum *)

Lemma read_loop_step {Hash : Type} (update : Hash -> list byte -> Hash)
    (size : nat) (checksum : Hash) (unread : list byte) :
  read_loop update size checksum unread =
  match firstn size unread with
  | [] => checksum
  | b :: fragment =>
      read_loop update size (update checksum (b :: fragment))
                (skipn size unread)
  end.
Proof.
  funelim (read_loop update size checksum unread).
  - rewrite e. reflexivity.
  - rewrite Hread. reflexivity.
Qed.

(** The loop on any hash object feeds it the fragments in order. *)
Lemma read_loop_fragments {Hash : Type} (update : Hash -> list byte -> Hash)
    (size : nat) :
  forall n unread checksum recorded,
    List.length unread <= n ->
    read_loop update size checksum unread =
    fold_left update
      (read_loop (fun r fragment => r ++ [fragment]) size [] unread) checksum /\
    read_loop (fun r fragment => r ++ [fragment]) size recorded unread =
    recorded ++ read_loop (fun r fragment => r ++ [fragment]) size [] unread.
Proof.
  induction n as [|n IH]; intros unread checksum recorded Hlen.
  - destruct unread; [|simpl in Hlen; lia].
    rewrite !(read_loop_step _ size _ []). rewrite firstn_nil.
    rewrite app_nil_r. split; reflexivity.
  - rewrite (read_loop_step update), !(read_loop_step (fun r f => r ++ [f])).
    destruct (firstn size unread) as [|b fragment] eqn:Hread.
    + rewrite app_nil_r. split; reflexivity.
    + assert (Hshort : List.length (skipn size unread) <= n).
      { rewrite length_skipn.
        assert (Hl : List.length (firstn size unread) = S (List.length fragment))
          by (rewrite Hread; reflexivity).
        rewrite length_firstn in Hl. lia. }
      destruct (IH (skipn size unread) (update checksum (b :: fragment))
                   ([] ++ [b :: fragment]) Hshort) as [H1 H2].
      destruct (IH (skipn size unread) checksum
                   (recorded ++ [b :: fragment]) Hshort) as [_ H3].
      rewrite H1, H2, H3. cbn [app fold_left].
      rewrite <- app_assoc. split; reflexivity.
Qed.

Lemma fragments_unfold size content :
  fragments size content =
  match firstn size content with
  | [] => []
  | b :: fragment => (b :: fragment) :: fragments size (skipn size content)
  end.
Proof.
  unfold fragments. rewrite read_loop_step.
  destruct (firstn size content) as [|b fragment]; [reflexivity|].
  destruct (@read_loop_fragments (list (list byte))
              (fun r f => r ++ [f]) size
              (List.length (skipn size content)) (skipn size content)
              [] ([] ++ [b :: fragment]) (Nat.le_refl _)) as [_ H].
  rewrite H. reflexivity.
Qed.

Lemma fragments_shape size :
  0 < size ->
  forall n content,
    List.length content <= n ->
    List.concat (fragments size content) = content /\
    Forall (fun fragment => 1 <= List.length fragment <= size)
           (fragments size content) /\
    (forall i, S i < List.length (fragments size content) ->
               List.length (nth i (fragments size content) []) = size) /\
    List.length (fragments size content) * size < List.length content + size.
Proof.
  intros Hsize.
  induction n as [|n IH]; intros content Hlen; rewrite fragments_unfold.
  - destruct content; [|simpl in Hlen; lia]. rewrite firstn_nil.
    cbn [List.concat List.length].
    split; [reflexivity|]. split; [constructor|].
    split; [intros i Hi; lia|lia].
  - destruct (firstn size content) as [|b fragment] eqn:Hread.
    + assert (Hl : List.length (firstn size content) = 0)
        by (rewrite Hread; reflexivity).
      rewrite length_firstn in Hl.
      assert (content = []) as ->
        by (destruct content; [reflexivity|simpl in Hl; lia]).
      cbn [List.concat List.length].
      split; [reflexivity|]. split; [constructor|].
      split; [intros i Hi; lia|lia].
    + assert (Hl : List.length (firstn size content) = S (List.length fragment))
        by (rewrite Hread; reflexivity).
      rewrite length_firstn in Hl.
      assert (Hshort : List.length (skipn size content) <= n)
        by (rewrite length_skipn; lia).
      destruct (IH (skipn size content) Hshort) as (Hc & Hf & Hfull & Hn).
      split; [|split; [|split]].
      * cbn [List.concat]. rewrite Hc, <- Hread. apply firstn_skipn.
      * constructor; [cbn [List.length]; lia|exact Hf].
      * intros [|i] Hi; cbn [nth List.length] in *.
        -- destruct (fragments size (skipn size content)) as [|f fs] eqn:Hfs;
             [cbn in Hi; lia|].
           rewrite fragments_unfold in Hfs.
           destruct (firstn size (skipn size content)) as [|b' f'] eqn:Hnext;
             [discriminate|].
           assert (Hl' : List.length (firstn size (skipn size content)) =
                         S (List.length f'))
             by (rewrite Hnext; reflexivity).
           rewrite length_firstn, length_skipn in Hl'. lia.
        -- apply Hfull. lia.
      * cbn [List.length]. rewrite length_skipn in Hn.
        destruct (Nat.le_gt_cases size (List.length content)) as [Hge|Hlt].
        -- replace (List.length content - size + size)
             with (List.length content) in Hn by lia.
           lia.
        -- replace (List.length content - size + size) with size in Hn by lia.
           destruct (List.length (fragments size (skipn size content)));
             [lia|cbn in Hn; lia].
Qed.

(** X12. For any hash object, [file_checksum] feeds it the content of the
    file in order and in fragments of exactly 64KiB, but for the last,
    which may be shorter; no fragment is empty, so an empty file feeds it
    nothing, and the number of fragments is the length of the content
    divided by 64KiB, rounded up. *)
Theorem file_checksum_fragments :
  forall (Hash : Type) (md5 : Hash) (update : Hash -> list byte -> Hash)
         (digest : Hash -> list byte) (filesystem : string -> Path)
         (filepath : string) (content : list byte),
    filesystem filepath = RegularFile content ->
    let size := Z.to_nat 65536 in
    let fed := fragments size content in
    file_checksum md5 update digest filesystem filepath =
    Ok (hexdigest digest (fold_left update fed md5)) /\
    List.concat fed = content /\
    Forall (fun fragment => 1 <= List.length fragment <= size) fed /\
    (forall i, S i < List.length fed -> List.length (nth i fed []) = size) /\
    List.length content <= List.length fed * size < List.length content + size.
Proof.
  intros Hash md5 update digest filesystem filepath content Hfile size fed.
  assert (Hsize : 0 < size) by (unfold size; lia).
  destruct (@fragments_shape size Hsize (List.length content) content
              (Nat.le_refl _)) as (Hc & Hf & Hfull & Hn).
  fold fed in Hc, Hf, Hfull, Hn.
  split; [|split; [exact Hc|split; [exact Hf|split; [exact Hfull|]]]].
  - unfold file_checksum. rewrite Hfile. do 2 f_equal.
    apply (@read_loop_fragments Hash update size (List.length content)
             content md5 [] (Nat.le_refl _)).
  - split; [|exact Hn].
    rewrite <- Hc at 1. clear - Hf.
    induction Hf as [|fragment rest Hfr _ IH]; [apply Nat.le_0_l|].
    cbn [List.concat List.length]. rewrite length_app. lia.
Qed.

Lemma file_checksum_fragments_witness :
  let size := Z.to_nat 65536 in
  let fed := fragments size abc_repeated in
  file_checksum [] (@app byte) toy_digest (one_file "image" abc_repeated)
    "image" =
  Ok (hexdigest toy_digest (fold_left (@app byte) fed [])) /\
  List.concat fed = abc_repeated /\
  Forall (fun fragment => 1 <= List.length fragment <= size) fed /\
  (forall i, S i < List.length fed -> List.length (nth i fed []) = size) /\
  List.length abc_repeated <= List.length fed * size
  < List.length abc_repeated + size.
Proof.
  exact (@file_checksum_fragments (list byte) [] (@app byte) toy_digest
           (one_file "image" abc_repeated) "image" abc_repeated eq_refl).
Defined.

(** ** More on generate_overcloud_passwords *)

Lemma existsb_eqb_In (name : string) (l : list string) :
  existsb (String.eqb name) l = true <-> In name l.
Proof.
  rewrite existsb_exists. split.
  - intros (x & Hin & Heq). apply String.eqb_eq in Heq. subst. exact Hin.
  - intros Hin. exists name. split; [exact Hin|apply String.eqb_refl].
Qed.

Lemma missing_names_same_keys names (d d' : dict string) :
  (forall name, In name names ->
     (In name (dict_keys d') <-> In name (dict_keys d))) ->
  missing_names names d' = missing_names names d.
Proof.
  intros Hkeys. unfold missing_names. apply filter_ext_in. intros name Hin.
  f_equal. apply eq_true_iff_eq. rewrite !existsb_eqb_In. apply Hkeys, Hin.
Qed.

Section FillOrder.

Variable Rng : Type.
Variable generate_password : Rng -> nat -> string * Rng.

Local Abbreviation fill := (fill_passwords generate_password).

(** The keys after the loop: those before, then the names that were
    missing, in the order of the list. *)
Lemma fill_passwords_key_order names :
  NoDup names ->
  forall passwords rng,
    dict_keys (fst (fill names passwords rng)) =
    dict_keys passwords ++ missing_names names passwords.
Proof.
  induction 1 as [|n names Hnot Hnd IH]; intros passwords rng.
  - simpl. rewrite app_nil_r. reflexivity.
  - cbn [fill_passwords missing_names filter].
    fold (missing_names names passwords).
    destruct (existsb (String.eqb n) (dict_keys passwords)) eqn:Hn;
      cbn [negb].
    + apply existsb_eqb_In in Hn.
      destruct (truthy (dict_get passwords n)); [apply IH|].
      destruct (generate_password rng _MIN_PASSWORD_SIZE) as [password rng'].
      rewrite IH, dict_keys_set_old by exact Hn. f_equal.
      apply missing_names_same_keys. intros name _.
      rewrite dict_keys_set_old by exact Hn. reflexivity.
    + assert (Hkey : ~ In n (dict_keys passwords)).
      { intros H. apply existsb_eqb_In in H. congruence. }
      assert (Hnone : dict_get passwords n = None).
      { destruct (dict_get passwords n) eqn:E; [|reflexivity].
        elim Hkey. apply dict_get_key. congruence. }
      rewrite Hnone. cbn [truthy].
      destruct (generate_password rng _MIN_PASSWORD_SIZE) as [password rng'].
      rewrite IH, dict_set_new by exact Hkey.
      unfold dict_keys at 1. rewrite map_app, <- app_assoc. cbn [map app fst].
      do 2 f_equal. apply missing_names_same_keys. intros name Hin.
      fold (dict_keys (passwords ++ [(n, password)])).
      rewrite <- (@dict_set_new _ passwords n password Hkey), dict_keys_set.
      split; [|auto]. intros [->|H]; [contradiction|exact H].
Qed.

(** With a source that gives passwords of the size asked for, every name
    of the list ends with a non-empty value, and every value is one that
    was there or has that size. *)
Lemma fill_passwords_values names :
  (forall rng size,
     String.length (fst (generate_password rng size)) = size) ->
  forall passwords rng,
    (forall name, In name names ->
       truthy (dict_get (fst (fill names passwords rng)) name) = true) /\
    (forall name value,
       dict_get (fst (fill names passwords rng)) name = Some value ->
       dict_get passwords name = Some value \/
       String.length value = _MIN_PASSWORD_SIZE).
Proof.
  intros Hsize. induction names as [|n names IH]; intros passwords rng.
  - split; [intros ? []|]. simpl. auto.
  - cbn [fill_passwords].
    destruct (truthy (dict_get passwords n)) eqn:Ht.
    + destruct (IH passwords rng) as [Hall Hval]. split; [|exact Hval].
      intros name [<-|Hin]; [|apply Hall; exact Hin].
      apply truthy_spec in Ht. destruct Ht as (s & Hget & Hne).
      rewrite (fill_passwords_keeps generate_password names passwords rng
                 n Hget Hne).
      apply truthy_spec. eauto.
    + pose proof (Hsize rng _MIN_PASSWORD_SIZE) as Hlen.
      destruct (generate_password rng _MIN_PASSWORD_SIZE) as [password rng'].
      cbn [fst] in Hlen.
      destruct (IH (dict_set passwords n password) rng') as [Hall Hval].
      split.
      * intros name [<-|Hin]; [|apply Hall; exact Hin].
        assert (Hne : password <> EmptyString)
          by (intros ->; discriminate Hlen).
        rewrite (fill_passwords_keeps generate_password names
                   (dict_set passwords n password) rng' n
                   (dict_get_set_eq passwords n password) Hne).
        apply truthy_spec. eauto.
      * intros name value Hget. destruct (Hval name value Hget) as [H|H];
          [|right; exact H].
        destruct (string_dec n name) as [->|Hne].
        -- rewrite dict_get_set_eq in H. injection H as <-.
           right. exact Hlen.
        -- rewrite dict_get_set_neq in H by exact Hne. left. exact H.
Qed.

End FillOrder.

Lemma generate_overcloud_passwords_run {Rng : Type}
    (generate_password : Rng -> nat -> string * Rng) existing rng
    returned file rng' :
  generate_overcloud_passwords generate_password existing rng =
  Ok (returned, file, rng') ->
  fill_passwords generate_password _PASSWORD_NAMES
    (stored_passwords existing) rng = (returned, rng') /\
  file = write_passwords returned /\
  NoDup (dict_keys (stored_passwords existing)).
Proof.
  unfold generate_overcloud_passwords, stored_passwords. intros Hgen.
  destruct existing as [content|].
  - destruct (read_passwords content) as [stored|e] eqn:Hread;
      [|discriminate Hgen]. cbn [bind] in Hgen.
    destruct (read_passwords_clean _ Hread) as [Hnd _].
    destruct (fill_passwords generate_password _PASSWORD_NAMES stored rng)
      as [p r]. injection Hgen as <- <- <-. auto.
  - cbn [bind] in Hgen.
    destruct (fill_passwords generate_password _PASSWORD_NAMES [] rng)
      as [p r]. injection Hgen as <- <- <-.
    split; [reflexivity|]. split; [reflexivity|constructor].
Qed.

Lemma letters_size (rng size : nat) :
  String.length (fst (letters rng size)) = size.
Proof.
  unfold letters. cbn [fst]. generalize (ascii_of_nat (97 + rng)). intros c.
  induction size as [|size IH]; simpl; [reflexivity|]. rewrite IH. reflexivity.
Qed.

(** X13. After a run that succeeds, the dictionary returned has no name
    twice and its names are the names of the file together with the
    canonical names: as many as the file has, plus one for each canonical
    name the file lacked (so the canonical names, each once, when there
    was no file).  The file written holds the line of each item of that
    dictionary, in some order of the items. *)
Theorem generate_overcloud_passwords_names :
  forall (Rng : Type) (generate_password : Rng -> nat -> string * Rng)
         (existing : option string) (rng : Rng)
         (returned : dict string) (file : string) (rng' : Rng),
    generate_overcloud_passwords generate_password existing rng =
    Ok (returned, file, rng') ->
    let stored := stored_passwords existing in
    Permutation (dict_keys returned)
                (dict_keys stored ++ missing_names _PASSWORD_NAMES stored) /\
    NoDup (dict_keys returned) /\
    (forall name, In name (dict_keys returned) <->
                  In name (dict_keys stored) \/ In name _PASSWORD_NAMES) /\
    (existing = None -> Permutation (dict_keys returned) _PASSWORD_NAMES) /\
    exists items, Permutation items returned /\ file = write_passwords items.
Proof.
  intros Rng generate_password existing rng returned file rng' Hgen stored.
  destruct (generate_overcloud_passwords_run _ _ _ Hgen) as (Hfill & Hfile & Hnd).
  fold stored in Hfill, Hnd.
  assert (Hreturned : returned =
            fst (fill_passwords generate_password _PASSWORD_NAMES stored rng))
    by (rewrite Hfill; reflexivity).
  split; [|split; [|split; [|split]]].
  - rewrite Hreturned.
    rewrite fill_passwords_key_order by apply password_names_NoDup.
    apply Permutation_refl.
  - rewrite Hreturned. apply fill_passwords_NoDup. exact Hnd.
  - intros name. rewrite Hreturned. split.
    + intros H. apply fill_passwords_keys in H. tauto.
    + intros H. apply fill_passwords_present. tauto.
  - intros ->. rewrite Hreturned.
    rewrite fill_passwords_key_order by apply password_names_NoDup.
    apply Permutation_refl.
  - exists returned. split; [apply Permutation_refl|exact Hfile].
Qed.

Lemma generate_overcloud_passwords_names_witness :
  Permutation (dict_keys sample_passwords) _PASSWORD_NAMES /\
  exists items,
    Permutation items sample_passwords /\ sample_file = write_passwords items.
Proof.
  assert (Hgen : generate_overcloud_passwords letters None 0 =
                 Ok (sample_passwords, sample_file, 13))
    by (vm_compute; reflexivity).
  destruct (generate_overcloud_passwords_names letters None 0 Hgen)
    as (_ & _ & _ & Hnames & Hfile).
  split; [exact (Hnames eq_refl)|exact Hfile].
Defined.

(** X14. With a source that gives passwords of the size asked for, a run
    that succeeds returns a non-empty value for every canonical name, and
    every value returned is either the value the file had for that name or
    a password of 25 characters. *)
Theorem generate_overcloud_passwords_values :
  forall (Rng : Type) (generate_password : Rng -> nat -> string * Rng)
         (existing : option string) (rng : Rng)
         (returned : dict string) (file : string) (rng' : Rng),
    (forall r size, String.length (fst (generate_password r size)) = size) ->
    generate_overcloud_passwords generate_password existing rng =
    Ok (returned, file, rng') ->
    (forall name, In name _PASSWORD_NAMES ->
       exists value,
         dict_get returned name = Some value /\ value <> EmptyString) /\
    (forall name value,
       dict_get returned name = Some value ->
       dict_get (stored_passwords existing) name = Some value \/
       String.length value = 25).
Proof.
  intros Rng generate_password existing rng returned file rng' Hsize Hgen.
  destruct (generate_overcloud_passwords_run _ _ _ Hgen) as (Hfill & _ & _).
  destruct (fill_passwords_values generate_password _PASSWORD_NAMES Hsize
              (stored_passwords existing) rng) as [Hall Hval].
  rewrite Hfill in Hall, Hval. cbn [fst] in Hall, Hval.
  split; [|exact Hval].
  intros name Hin. apply truthy_spec. apply Hall. exact Hin.
Qed.

Lemma generate_overcloud_passwords_values_witness :
  (forall name, In name _PASSWORD_NAMES ->
     exists value,
       dict_get sample_passwords name = Some value /\ value <> EmptyString) /\
  (forall name value,
     dict_get sample_passwords name = Some value ->
     dict_get (stored_passwords None) name = Some value \/
     String.length value = 25).
Proof.
  refine (generate_overcloud_passwords_values letters None 0
            (file := sample_file) (rng' := 13) letters_size _).
  vm_compute. reflexivity.
Defined.

(** ** get_password *)

Example get_password_first_call :
  get_password letters (fresh None 0) "OVERCLOUD_ADMIN_TOKEN" =
  Ok (Found "bbbbbbbbbbbbbbbbbbbbbbbbb",
      {| password_cache := Some sample_passwords;
         password_file := Some sample_file;
         password_rng := 13 |}).
Proof. vm_compute. reflexivity. Qed.

Example get_password_unknown :
  match get_password letters (fresh None 0) "OVERCLOUD_ADMIN" with
  | Ok (answer, _) => answer = KeyError "OVERCLOUD_ADMIN"
  | Raise _ => False
  end.
Proof. vm_compute. reflexivity. Qed.

Lemma service_password_fields service fields field :
  In (service, fields) SERVICE_LIST ->
  dict_get fields "password_field" = Some field ->
  In field _PASSWORD_NAMES.
Proof.
  intros Hin Hfield. simpl in Hin.
  repeat (destruct Hin as [Hin|Hin];
          [injection Hin as <- <-; cbn in Hfield;
           first [discriminate Hfield
                 |injection Hfield as <-; simpl; tauto]|]).
  contradiction.
Qed.

(** X15. Once a call of [get_password] has succeeded the passwords are
    cached: any later call, for any name, leaves the file and the random
    source alone and answers from the cache, so a name asked again gets
    the answer it got, whatever has become of the file in between. *)
Theorem get_password_cached :
  forall (Rng : Type) (generate_password : Rng -> nat -> string * Rng)
         (state : PasswordState Rng) (name : string) (answer : lookup)
         (state' : PasswordState Rng),
    get_password generate_password state name = Ok (answer, state') ->
    (exists cache, password_cache state' = Some cache) /\
    forall (name2 : string) (file2 : option string) (rng2 : Rng),
      let later := {| password_cache := password_cache state';
                      password_file := file2;
                      password_rng := rng2 |} in
      exists answer2,
        get_password generate_password later name2 = Ok (answer2, later) /\
        (name2 = name -> answer2 = answer).
Proof.
  intros Rng generate_password state name answer state' Hget.
  assert (Hcache : exists cache,
             password_cache state' = Some cache /\
             answer = subscript cache name).
  { unfold get_password in Hget.
    destruct (password_cache state) as [cache|] eqn:Hc.
    - injection Hget as <- <-. exists cache. auto.
    - destruct (generate_overcloud_passwords generate_password
                  (password_file state) (password_rng state))
        as [[[passwords file] rng]|e]; [|discriminate Hget].
      cbn [bind] in Hget. injection Hget as <- <-.
      exists passwords. auto. }
  destruct Hcache as (cache & Hc & Hanswer).
  split; [exists cache; exact Hc|].
  intros name2 file2 rng2 later.
  exists (subscript cache name2). unfold get_password, later.
  cbn [password_cache]. rewrite Hc.
  split; [reflexivity|]. intros ->. symmetry. exact Hanswer.
Qed.

Lemma get_password_cached_witness :
  exists answer2,
    get_password letters
      {| password_cache := Some sample_passwords;
         password_file := None;
         password_rng := 77 |} "OVERCLOUD_ADMIN_TOKEN" =
    Ok (answer2,
        {| password_cache := Some sample_passwords;
           password_file := None;
           password_rng := 77 |}) /\
    ("OVERCLOUD_ADMIN_TOKEN" = "OVERCLOUD_ADMIN_TOKEN" ->
     answer2 = Found "bbbbbbbbbbbbbbbbbbbbbbbbb").
Proof.
  refine (proj2 (@get_password_cached nat letters (fresh None 0)
                   "OVERCLOUD_ADMIN_TOKEN"
                   (Found "bbbbbbbbbbbbbbbbbbbbbbbbb")
                   {| password_cache := Some sample_passwords;
                      password_file := Some sample_file;
                      password_rng := 13 |} _)
            "OVERCLOUD_ADMIN_TOKEN" None 77).
  vm_compute. reflexivity.
Defined.

(** X16. In a fresh process a call of [get_password] that does not fail
    on the file finds a password exactly for the canonical names and the
    names of the file, and raises [KeyError] for any other name.  Every
    [password_field] of [constants.SERVICE_LIST] is a canonical name, so
    the password of a service is always found. *)
Theorem get_password_known_names :
  forall (Rng : Type) (generate_password : Rng -> nat -> string * Rng)
         (file : option string) (rng : Rng) (name : string)
         (answer : lookup) (state' : PasswordState Rng),
    get_password generate_password (fresh file rng) name =
    Ok (answer, state') ->
    ((exists value, answer = Found value) <->
     In name _PASSWORD_NAMES \/ In name (dict_keys (stored_passwords file))) /\
    (answer = KeyError name <->
     ~ In name _PASSWORD_NAMES /\
     ~ In name (dict_keys (stored_passwords file))) /\
    (forall service fields,
        In (service, fields) SERVICE_LIST ->
        dict_get fields "password_field" = Some name ->
        exists value, answer = Found value).
Proof.
  intros Rng generate_password file rng name answer state' Hget.
  unfold get_password, fresh in Hget.
  cbn [password_cache password_file password_rng] in Hget.
  destruct (generate_overcloud_passwords generate_password file rng)
    as [[[passwords written] rng']|e] eqn:Hgen; [|discriminate Hget].
  cbn [bind] in Hget. injection Hget as <- _.
  destruct (generate_overcloud_passwords_run _ _ _ Hgen) as (Hfill & _ & _).
  assert (Hkeys : In name (dict_keys passwords) <->
                  In name _PASSWORD_NAMES \/
                  In name (dict_keys (stored_passwords file))).
  { replace passwords with
      (fst (fill_passwords generate_password _PASSWORD_NAMES
              (stored_passwords file) rng)) by (rewrite Hfill; reflexivity).
    split; [apply fill_passwords_keys|apply fill_passwords_present]. }
  rewrite dict_get_key in Hkeys. unfold subscript.
  destruct (dict_get passwords name) as [value|].
  - assert (Hknown : In name _PASSWORD_NAMES \/
                     In name (dict_keys (stored_passwords file)))
      by (apply Hkeys; discriminate).
    split; [split; [intros _; exact Hknown|intros _; eauto]|].
    split; [split; [discriminate|tauto]|]. eauto.
  - assert (Hunknown : ~ (In name _PASSWORD_NAMES \/
                          In name (dict_keys (stored_passwords file))))
      by (intros H; apply Hkeys in H; congruence).
    split; [split; [intros [v Hv]; discriminate|tauto]|].
    split; [split; [tauto|reflexivity]|].
    intros service fields Hin Hfield. elim Hunknown. left.
    exact (@service_password_fields service fields name Hin Hfield).
Qed.

Lemma get_password_known_names_witness :
  exists value, Found "kkkkkkkkkkkkkkkkkkkkkkkkk" = Found value.
Proof.
  refine (proj2 (proj2 (@get_password_known_names nat letters None 0
                   "OVERCLOUD_NOVA_PASSWORD"
                   (Found "kkkkkkkkkkkkkkkkkkkkkkkkk")
                   {| password_cache := Some sample_passwords;
                      password_file := Some sample_file;
                      password_rng := 13 |} _))
            "nova" [("password_field", "OVERCLOUD_NOVA_PASSWORD")] _ eq_refl).
  - vm_compute. reflexivity.
  - simpl. tauto.
Defined.

(** ** set_nodes_state *)

Example set_nodes_state_mixed :
  let t := set_nodes_state mixed_client mixed_nodes "manage" "manageable"
             ["active"] in
  yielded_nodes t = ["n1"] /\
  requests t = [("n1", "manage"); ("n2", "manage")] /\
  printed t = ["FAIL: State not updated for Node n2"].
Proof. repeat split; reflexivity. Qed.

Lemma set_nodes_state_shape client transition target_state skipped_states :
  forall nodes,
    let t := set_nodes_state client nodes transition target_state
               skipped_states in
    let waited node :=
      negb (existsb (String.eqb (provision_state node)) skipped_states) in
    let reached node :=
      fst (wait_for_provision_state client (uuid node) target_state
             None None) in
    requests t = map (fun node => (uuid node, transition))
                     (filter waited nodes) /\
    yielded_nodes t =
    map uuid (filter (fun node => waited node && reached node) nodes) /\
    printed t =
    map (fun node => ("FAIL: State not updated for Node "
                      ++ uuid node)%string)
        (filter (fun node => waited node && negb (reached node)) nodes).
Proof.
  induction nodes as [|node nodes IH]; [repeat split; reflexivity|].
  cbv zeta in *. cbn [set_nodes_state filter].
  destruct (existsb (String.eqb (provision_state node)) skipped_states);
    cbn [negb andb]; [exact IH|].
  destruct IH as (Hr & Hy & Hp).
  destruct (wait_for_provision_state client (uuid node) target_state None None)
    as [reached t]. cbn [fst].
  destruct reached; cbn [negb];
    unfold requests, yielded_nodes, printed in *;
    cbn [flat_map app map]; rewrite Hr, Hy, Hp; repeat split; reflexivity.
Qed.

(** X17. [set_nodes_state] sends the transition once to every node whose
    provisioning state is not among the skipped ones, in the order of the
    nodes, and to no other node.  It yields, in that order, the nodes
    among them that are gone or in the target state on one of the 10
    attempts of the wait, and prints a failure line for each of the
    others; a node in a skipped state is neither yielded nor reported. *)
Theorem set_nodes_state_yields :
  forall (client : BaremetalClient) (nodes : list Node)
         (transition target_state : string) (skipped_states : list string),
    let t := set_nodes_state client nodes transition target_state
               skipped_states in
    let waited node := ~ In (provision_state node) skipped_states in
    let reached node :=
      exists k, k < 10 /\ converged client (uuid node) target_state k in
    requests t =
    map (fun node => (uuid node, transition))
        (filter (fun node =>
                   negb (existsb (String.eqb (provision_state node))
                                 skipped_states)) nodes) /\
    (forall u, In u (yielded_nodes t) <->
               exists node, In node nodes /\ uuid node = u /\
                            waited node /\ reached node) /\
    (forall line, In line (printed t) <->
                  exists node, In node nodes /\
                               line = ("FAIL: State not updated for Node "
                                       ++ uuid node)%string /\
                               waited node /\ ~ reached node) /\
    List.length (yielded_nodes t) + List.length (printed t) =
    List.length (requests t) /\
    List.length (requests t) <= List.length nodes.
Proof.
  intros client nodes transition target_state skipped_states t waited reached.
  destruct (set_nodes_state_shape client transition target_state
              skipped_states nodes) as (Hr & Hy & Hp). fold t in Hr, Hy, Hp.
  assert (Hwaited : forall node,
             negb (existsb (String.eqb (provision_state node)) skipped_states)
             = true <-> waited node).
  { intros node. unfold waited. rewrite negb_true_iff.
    rewrite <- existsb_eqb_In.
    destruct (existsb (String.eqb (provision_state node)) skipped_states);
      split; congruence. }
  assert (Hreached : forall node,
             fst (wait_for_provision_state client (uuid node) target_state
                    None None) = true <-> reached node).
  { intros node. unfold reached, wait_for_provision_state.
    apply (provision_loop_true client (uuid node) target_state 1%Z 10 0). }
  split; [exact Hr|]. split; [|split; [|split]].
  - intros u. rewrite Hy, in_map_iff. split.
    + intros (node & Hu & Hin). apply filter_In in Hin.
      destruct Hin as [Hin Hb]. apply andb_true_iff in Hb.
      destruct Hb as [Hw Hre]. exists node.
      split; [exact Hin|]. split; [exact Hu|].
      split; [apply Hwaited; exact Hw|apply Hreached; exact Hre].
    + intros (node & Hin & Hu & Hw & Hre). exists node.
      split; [exact Hu|]. apply filter_In. split; [exact Hin|].
      apply andb_true_iff. split; [apply Hwaited; exact Hw|].
      apply Hreached. exact Hre.
  - intros line. rewrite Hp, in_map_iff. split.
    + intros (node & Hline & Hin). apply filter_In in Hin.
      destruct Hin as [Hin Hb]. apply andb_true_iff in Hb.
      destruct Hb as [Hw Hre]. exists node.
      split; [exact Hin|]. split; [symmetry; exact Hline|].
      split; [apply Hwaited; exact Hw|].
      intros H. apply Hreached in H. rewrite H in Hre. discriminate.
    + intros (node & Hin & Hline & Hw & Hre). exists node.
      split; [symmetry; exact Hline|]. apply filter_In. split; [exact Hin|].
      apply andb_true_iff. split; [apply Hwaited; exact Hw|].
      apply negb_true_iff.
      destruct (fst (wait_for_provision_state client (uuid node) target_state
                       None None)) eqn:E; [|reflexivity].
      elim Hre. apply Hreached. exact E.
  - rewrite Hr, Hy, Hp, !length_map. clear.
    induction nodes as [|node nodes IH]; [reflexivity|]. cbn [filter].
    destruct (negb (existsb (String.eqb (provision_state node)) skipped_states));
      cbn [andb]; [|exact IH].
    destruct (fst (wait_for_provision_state client (uuid node) target_state
                     None None)); cbn [negb List.length]; lia.
  - rewrite Hr, length_map. apply filter_length_le.
Qed.

(** ** check_hypervisor_stats *)

Example check_hypervisor_stats_default :
  check_hypervisor_stats
    {| hypervisor_count := 2; memory_mb := 8192; vcpus := 8 |}
    None None None =
  Some {| hypervisor_count := 2; memory_mb := 8192; vcpus := 8 |}.
Proof. reflexivity. Qed.

(** X18. [check_hypervisor_stats] returns the statistics, unchanged,
    exactly when the count, the memory and the vcpus each reach what is
    asked for (1, 0 and 0 when left out), and [None] otherwise; so
    statistics that meet a demand meet every lower demand. *)
Theorem check_hypervisor_stats_meets :
  forall (statistics : Statistics) (nodes memory vcpu : option Z),
    let meets n m v :=
      (n <= hypervisor_count statistics /\ m <= memory_mb statistics /\
       v <= vcpus statistics)%Z in
    (check_hypervisor_stats statistics nodes memory vcpu = Some statistics <->
     meets (getattr nodes 1%Z) (getattr memory 0%Z) (getattr vcpu 0%Z)) /\
    (check_hypervisor_stats statistics nodes memory vcpu = None <->
     ~ meets (getattr nodes 1%Z) (getattr memory 0%Z) (getattr vcpu 0%Z)) /\
    (forall n m v,
        check_hypervisor_stats statistics nodes memory vcpu <> None ->
        (n <= getattr nodes 1)%Z -> (m <= getattr memory 0)%Z ->
        (v <= getattr vcpu 0)%Z ->
        check_hypervisor_stats statistics (Some n) (Some m) (Some v) =
        Some statistics).
Proof.
  intros statistics nodes memory vcpu meets.
  assert (Hspec : forall n m v,
             check_hypervisor_stats statistics n m v =
             if ((getattr n 1 <=? hypervisor_count statistics)
                 && (getattr m 0 <=? memory_mb statistics)
                 && (getattr v 0 <=? vcpus statistics))%Z
             then Some statistics else None).
  { intros n m v. unfold check_hypervisor_stats. cbn [forallb].
    rewrite !Z.geb_leb, andb_true_r, andb_assoc. reflexivity. }
  assert (Hmeets : forall n m v,
             ((getattr n 1 <=? hypervisor_count statistics)
              && (getattr m 0 <=? memory_mb statistics)
              && (getattr v 0 <=? vcpus statistics))%Z = true <->
             meets (getattr n 1%Z) (getattr m 0%Z) (getattr v 0%Z)).
  { intros n m v. unfold meets. rewrite !andb_true_iff, !Z.leb_le. tauto. }
  split; [|split].
  - rewrite Hspec, <- Hmeets.
    destruct (_ && _ && _)%bool; split; congruence.
  - rewrite Hspec, <- Hmeets.
    destruct (_ && _ && _)%bool; split; congruence.
  - intros n m v Hsome Hn Hm Hv. rewrite Hspec in Hsome |- *.
    destruct (_ && _ && _)%bool eqn:E in Hsome; [|congruence].
    apply (Hmeets nodes memory vcpu) in E. destruct E as (H1 & H2 & H3).
    assert (Hlow : meets n m v) by (unfold meets; lia).
    apply (Hmeets (Some n) (Some m) (Some v)) in Hlow. rewrite Hlow.
    reflexivity.
Qed.

(** ** event_log_formatter *)

Example event_log_formatter_two :
  event_log_formatter two_events =
  ("2015-06-01 10:00:00Z [Controller]: CREATE_IN_PROGRESS  state changed"
   ++ newline ++ " [overcloud]: CREATE_COMPLETE  ")%string.
Proof. reflexivity. Qed.

Lemma splitlines_single (line : string) :
  has_char is_line_break line = false ->
  line <> EmptyString ->
  splitlines line = [line].
Proof.
  induction line as [|c line IH]; intros Hclean Hne; [congruence|].
  simpl in Hclean. apply orb_false_elim in Hclean. destruct Hclean as [Hc Hl].
  apply is_line_break_false in Hc. destruct Hc as [Hlf Hcr].
  cbn [splitlines]. rewrite Hlf, Hcr.
  destruct line as [|c' line]; [reflexivity|].
  rewrite IH by (auto; discriminate). reflexivity.
Qed.

Lemma splitlines_join (lines : list string) :
  Forall (fun line => has_char is_line_break line = false /\
                      line <> EmptyString) lines ->
  splitlines (join newline lines) = lines.
Proof.
  induction 1 as [|line rest [Hclean Hne] Hrest IH]; [reflexivity|].
  destruct rest as [|next rest].
  - apply splitlines_single; assumption.
  - change (join newline (line :: next :: rest))
      with (line ++ newline ++ join newline (next :: rest))%string.
    rewrite splitlines_line by exact Hclean. rewrite IH. reflexivity.
Qed.

Lemma replace_char_clean (s : string) :
  has_char is_line_break s = false ->
  has_char is_line_break (replace_char "T" " " s) = false.
Proof.
  induction s as [|c s IH]; simpl; intros H; [reflexivity|].
  apply orb_false_elim in H. destruct H as [Hc Hs].
  rewrite (IH Hs), orb_false_r.
  destruct (Ascii.eqb c "T"); [reflexivity|exact Hc].
Qed.

Lemma replace_char_gone (old new : ascii) (s : string) :
  old <> new ->
  has_char (fun c => Ascii.eqb c old) (replace_char old new s) = false.
Proof.
  intros Hne. induction s as [|c s IH]; simpl; [reflexivity|].
  rewrite IH, orb_false_r.
  destruct (Ascii.eqb c old) eqn:E; [|exact E].
  apply Ascii.eqb_neq. congruence.
Qed.

Lemma format_event_line (event : EventRecord) :
  one_line event ->
  has_char is_line_break (format_event event) = false /\
  format_event event <> EmptyString.
Proof.
  intros (Ht & Hn & Hs & Hr). unfold format_event. split.
  - rewrite !has_char_app, (replace_char_clean _ Ht), Hn, Hs, Hr. reflexivity.
  - intros H. apply (f_equal (has_char (fun c => Ascii.eqb c "["))) in H.
    rewrite !has_char_app in H. cbn in H.
    rewrite orb_true_r in H. discriminate.
Qed.

(** X19. The log [event_log_formatter] returns reads back, line by line,
    as one line for each event in the order of the events, provided no
    attribute of an event holds an end of line; the time at the head of a
    line holds no ['T'], and the log of no events is empty. *)
Theorem event_log_formatter_lines :
  forall (events : list EventRecord),
    (forall event, In event events -> one_line event) ->
    splitlines (event_log_formatter events) = map format_event events /\
    List.length (splitlines (event_log_formatter events)) =
    List.length events /\
    (forall event,
        has_char (fun c => Ascii.eqb c "T")
                 (replace_char "T" " " (getattr (event_time event) ""))
        = false) /\
    event_log_formatter [] = EmptyString.
Proof.
  intros events Hlines.
  assert (Hsplit : splitlines (event_log_formatter events) =
                   map format_event events).
  { apply splitlines_join. apply Forall_forall. intros line Hin.
    apply in_map_iff in Hin. destruct Hin as (event & <- & Hin).
    apply format_event_line. apply Hlines. exact Hin. }
  split; [exact Hsplit|]. split; [rewrite Hsplit; apply length_map|].
  split; [|reflexivity].
  intros event. apply replace_char_gone. discriminate.
Qed.

Lemma event_log_formatter_lines_witness :
  splitlines (event_log_formatter two_events) = map format_event two_events.
Proof.
  refine (proj1 (event_log_formatter_lines two_events _)).
  intros event [<-|[<-|[]]]; repeat split; reflexivity.
Defined.

(** ** When the password file can be read *)

Lemma dict_of_pairs_ok elements :
  forall i acc,
    Forall (fun element => List.length element = 2) elements ->
    exists d, dict_of_pairs elements i acc = Ok d.
Proof.
  induction elements as [|element rest IH]; intros i acc Hall; simpl;
    [eauto|].
  inversion Hall as [|? ? Hlen Hrest]; subst.
  destruct element as [|k [|v [|x element]]]; try discriminate Hlen.
  apply IH. exact Hrest.
Qed.

Lemma read_passwords_ok content :
  (exists d, read_passwords content = Ok d) <->
  forall line, In line (splitlines content) -> count_char "=" line = 1.
Proof.
  unfold read_passwords. split.
  - intros [d Hd] line Hin.
    destruct (Nat.eq_dec (count_char "=" line) 1) as [H|H]; [exact H|].
    destruct (@dict_of_pairs_bad (map (split "="%char) (splitlines content))
                0 []) as [msg Hmsg].
    + exists (split "="%char line). split; [apply in_map; exact Hin|].
      rewrite split_length. lia.
    + congruence.
  - intros Hall. apply dict_of_pairs_ok. apply Forall_forall.
    intros element Hin. apply in_map_iff in Hin.
    destruct Hin as (line & <- & Hline).
    rewrite split_length, (Hall line Hline). reflexivity.
Qed.

(** X20. [generate_overcloud_passwords] succeeds exactly when there is no
    file yet or every line of the file holds exactly one ['=']; a line
    with none (a blank line too) or with more than one makes it raise a
    [ValueError]. *)
Theorem generate_overcloud_passwords_readable :
  forall (Rng : Type) (generate_password : Rng -> nat -> string * Rng)
         (existing : option string) (rng : Rng),
    let well_formed :=
      forall content, existing = Some content ->
        forall line, In line (splitlines content) ->
                     count_char "=" line = 1 in
    ((exists outcome,
         generate_overcloud_passwords generate_password existing rng =
         Ok outcome) <-> well_formed) /\
    ((exists msg,
         generate_overcloud_passwords generate_password existing rng =
         Raise (ValueError msg)) <-> ~ well_formed).
Proof.
  intros Rng generate_password existing rng well_formed.
  unfold generate_overcloud_passwords.
  destruct existing as [content|].
  - destruct (read_passwords content) as [stored|e] eqn:Hread; cbn [bind].
    + assert (Hwf : well_formed).
      { intros c Hc. injection Hc as <-. apply read_passwords_ok. eauto. }
      destruct (fill_passwords generate_password _PASSWORD_NAMES stored rng)
        as [p r].
      split; split; try tauto; [eauto|intros [msg H]; discriminate].
    + assert (Hwf : ~ well_formed).
      { intros H. destruct (proj2 (read_passwords_ok content) (H content eq_refl))
          as [d Hd]. congruence. }
      assert (Hmsg : exists msg, e = ValueError msg).
      { unfold read_passwords in Hread.
        destruct (Forall_Exists_dec (fun element => List.length element = 2)
                    (fun element => Nat.eq_dec (List.length element) 2)
                    (map (split "="%char) (splitlines content))) as [Hall|Hex].
        - destruct (dict_of_pairs_ok 0 [] Hall) as [d Hd]. congruence.
        - apply Exists_exists in Hex.
          destruct (@dict_of_pairs_bad _ 0 [] Hex) as [msg Hm].
          exists msg. congruence. }
      destruct Hmsg as [msg ->].
      split; split; try tauto; [intros [o H]; discriminate|eauto].
  - cbn [bind].
    assert (Hwf : well_formed) by (intros c Hc; discriminate).
    destruct (fill_passwords generate_password _PASSWORD_NAMES [] rng)
      as [p r].
    split; split; try tauto; [eauto|intros [msg H]; discriminate].
Qed.
